(** * KubeVela appfile rendering: a shallow embedding of the Go sources

    The development follows the packages of the repository:
    - [Sets]: the CUE syntax-tree helpers [lookUp], [lookField],
      [labelStr], [print] and [toFile];
    - [Appfile]: [LoadFromFile], [BuildOAMApplication],
      [addDefaultHealthScopeToApplication], [FormatDefaultHealthScopeName];
    - [Application]: [Validate], exercised by [TestApplication].

    Go values are embedded as follows.  A Go [string] is a [string]; an
    interface value that may be [nil] is a constructor of its own
    ([NilNode]) or an [option]; a function returning [(T, error)] returns
    a pair whose second component is an [option error]; a [panic] is a
    constructor of the result type; a [map[string]T] is a [gmap string T]
    and a [range] over it visits the entries in some order, any
    permutation of [map_to_list]. *)

From Stdlib Require Import String Ascii DecimalString DecimalNat Decimal.
From stdpp Require Import gmap strings list fin_maps.

Open Scope string_scope.
Open Scope list_scope.

(** ** Go standard library functions used by the sources *)

Module Go.

(** [strconv.Itoa] on a non-negative [int]: the decimal numeral without
    sign and without leading zeros. *)
Definition Itoa (i : nat) : string :=
  NilZero.string_of_uint (Nat.to_uint i).

Definition newline : string := String (ascii_of_nat 10) EmptyString.

(** Go's [error] values.  [notFoundErr] is the package variable of that
    name in package sets, a value distinct from every other error;
    [errorString] is what [errors.New] and [fmt.Errorf] build. *)
Inductive error : Type :=
| notFoundErr
| errorString (msg : string).

(** A call that either returns or panics. *)
Inductive outcome (A : Type) : Type :=
| Return (a : A)
| Panic (msg : string).
Arguments Return {A} a.
Arguments Panic {A} msg.

Definition isPathSeparator (c : ascii) : bool :=
  if decide (c = "/"%char) then true else false.

Fixpoint stripSeparators (rpath : list ascii) : list ascii :=
  match rpath with
  | c :: rest => if isPathSeparator c then stripSeparators rest else rpath
  | [] => []
  end.

Fixpoint lastElement (rpath : list ascii) : list ascii :=
  match rpath with
  | c :: rest => if isPathSeparator c then [] else c :: lastElement rest
  | [] => []
  end.

(** [filepath.Base] for slash-separated paths: the last element of the
    path, trailing separators removed; ["."] for the empty path and
    ["/"] for a path of separators only.  Both loops of the Go function
    scan from the end of the path, hence the reversed list. *)
Definition Base (path : string) : string :=
  if decide (path = "") then "."
  else
    let rpath := stripSeparators (rev (list_ascii_of_string path)) in
    let elem := rev (lastElement rpath) in
    match elem with
    | [] => "/"
    | _ => string_of_list_ascii elem
    end.

(** The scan of [filepath.Ext], from the end of the path: the suffix
    starting at the last dot of the last element, or [""]. *)
Fixpoint extScan (rpath : list ascii) (suffix : list ascii) : list ascii :=
  match rpath with
  | c :: rest =>
      if isPathSeparator c then []
      else if decide (c = "."%char) then c :: suffix
      else extScan rest (c :: suffix)
  | [] => []
  end.

Definition Ext (path : string) : string :=
  string_of_list_ascii (extScan (rev (list_ascii_of_string path)) []).

End Go.

(** ** Package sets: path resolution and printing of CUE syntax trees *)

Module Sets.
Import Go.

(** [token.RelPos]: the white space before a node. *)
Inductive RelPos : Type :=
| NoRelPos | Elided | NoSpace | Blank | Newline | NewSection.

(** [ast.Node].  [NilNode] is the nil interface value.  [File],
    [Field], [EmbedDecl] and [Comment] are nodes that are not
    expressions; the other constructors implement [ast.Expr] and carry
    the relative position of their first token. *)
#[warnings="-register-all"] Inductive Node : Type :=
| NilNode
| File (Filename : string) (Decls : list Node)
| StructLit (pos : RelPos) (Elts : list Node)
| ListLit (pos : RelPos) (Elts : list Node)
| Field (Label : Node) (Value : Node)
| EmbedDecl (Expr : Node)
| Comment (Text : string)
| Ident (pos : RelPos) (Name : string)
| BasicLit (pos : RelPos) (Value : string)
| ParenExpr (pos : RelPos) (X : Node).

Definition isNil (n : Node) : bool :=
  match n with NilNode => true | _ => false end.

Definition labelStr (label : Node) : string :=
  match label with
  | Ident _ name => name
  | _ => ""
  end.

Definition lookField (node : Node) (key : string) : Node :=
  match node with
  | Field label value =>
      if decide (labelStr label = key) then value else NilNode
  | _ => NilNode
  end.

(** The loop over [x.Decls] (and over the [Elts] of a struct literal):
    the first declaration for which [lookField] is not nil is followed
    by [next]; falling out of the loop reaches the final
    [return nil, notFoundErr]. *)
Fixpoint rangeDecls (next : Node -> Node * option error) (key : string)
    (decls : list Node) : Node * option error :=
  match decls with
  | [] => (NilNode, Some notFoundErr)
  | decl :: decls' =>
      let nnode := lookField decl key in
      if isNil nnode then rangeDecls next key decls' else next nnode
  end.

(** The loop [for index, elt := range x.Elts] of a list literal. *)
Fixpoint rangeElts (next : Node -> Node * option error) (key : string)
    (index : nat) (elts : list Node) : Node * option error :=
  match elts with
  | [] => (NilNode, Some notFoundErr)
  | elt :: elts' =>
      if decide (Go.Itoa index = key) then next elt
      else rangeElts next key (S index) elts'
  end.

Fixpoint lookUp (node : Node) (paths : list string) : Node * option error :=
  match paths with
  | [] => (node, None)
  | key :: rest =>
      match node with
      | File _ decls => rangeDecls (fun n => lookUp n rest) key decls
      | ListLit _ elts => rangeElts (fun n => lookUp n rest) key 0 elts
      | StructLit _ elts => rangeDecls (fun n => lookUp n rest) key elts
      | _ => (NilNode, Some notFoundErr)
      end
  end.

Definition NotFound : Node * option error := (NilNode, Some notFoundErr).

(** *** Printing *)

(** What [fmt.Sprintf "%T"] prints for a node. *)
Definition typeName (n : Node) : string :=
  match n with
  | NilNode => "<nil>"
  | File _ _ => "*ast.File"
  | StructLit _ _ => "*ast.StructLit"
  | ListLit _ _ => "*ast.ListLit"
  | Field _ _ => "*ast.Field"
  | EmbedDecl _ => "*ast.EmbedDecl"
  | Comment _ => "*ast.Comment"
  | Ident _ _ => "*ast.Ident"
  | BasicLit _ _ => "*ast.BasicLit"
  | ParenExpr _ _ => "*ast.ParenExpr"
  end.

(** [ast.SetRelPos]: the relative position of the node's first token
    becomes [p]. *)
Definition SetRelPos (n : Node) (p : RelPos) : Node :=
  match n with
  | StructLit _ elts => StructLit p elts
  | ListLit _ elts => ListLit p elts
  | Ident _ name => Ident p name
  | BasicLit _ value => BasicLit p value
  | ParenExpr _ x => ParenExpr p x
  | _ => n
  end.

(** The result is a [*ast.File]; [NilNode] is the nil pointer. *)
Definition toFile (n : Node) : outcome Node :=
  match n with
  | NilNode => Return NilNode
  | StructLit _ elts => Return (File "" elts)
  | ListLit _ _ | Ident _ _ | BasicLit _ _ | ParenExpr _ _ =>
      Return (File "" [EmbedDecl (SetRelPos n NoSpace)])
  | File _ _ => Return n
  | Field _ _ | EmbedDecl _ | Comment _ =>
      Panic ("Unsupported node type " +:+ typeName n)
  end.

(** The CUE runtime that [print] calls: values, their evaluation, the
    syntax of a value under the options [cue.All()],
    [cue.DisallowCycles(true)], [cue.ResolveReferences(true)] and
    [cue.Docs(true)], and the formatter [format.Node]. *)
Class Cue : Type := {
  Value : Type;
  Eval : Value -> Value;
  Syntax : Value -> Node;
  format_Node : Node -> string * option error;
}.

(** The variables the closure [format] of [print] captures, and the
    standard output of the process, which [fmt.Println] writes. *)
Record printer : Type := {
  w : string;
  useSep : bool;
  stdout : string;
}.

Definition format `{Cue} (st : printer) (name : string) (n : Node)
    : outcome (printer * option error) :=
  let st :=
    if decide (name <> "") then
      {| w := w st +:+ "// " +:+ Base name +:+ newline;
         useSep := useSep st; stdout := stdout st |}
    else if useSep st then
      {| w := w st; useSep := useSep st;
         stdout := stdout st +:+ "// ---" +:+ newline |}
    else st in
  let st := {| w := w st; useSep := true; stdout := stdout st |} in
  match toFile n with
  | Panic msg => Panic msg
  | Return f =>
      match format_Node f with
      | (_, Some err) => Return (st, Some err)
      | (b, None) =>
          Return ({| w := w st +:+ b; useSep := useSep st;
                     stdout := stdout st |}, None)
      end
  end.

Definition print `{Cue} (out : string) (v : Value)
    : outcome (string * (string * option error)) :=
  let v := Eval v in
  let st := {| w := ""; useSep := false; stdout := out |} in
  match format st "" (Syntax v) with
  | Panic msg => Panic msg
  | Return (st, Some err) => Return (stdout st, ("", Some err))
  | Return (st, None) => Return (stdout st, (w st, None))
  end.

Definition convert2Node `{Cue} (value : Value) : Node := Syntax value.

End Sets.

(** ** Package appfile: loading an Appfile and rendering it *)

Module Appfile.
Import Go.

(** Modelled from the spec: the value of a service field, a document
    that is a scalar, a mapping or a list.  The Go sources hold it in an
    [interface{}]. *)
#[warnings="-register-all"] Inductive Document : Type :=
| DScalar (text : string)
| DMap (fields : list (string * Document))
| DList (items : list Document).

(** Modelled from the spec: the service descriptor, a mapping of field
    names to values in the order of the document.  The declaration of
    the Go type [Service], a [map[string]interface{}] in [TestObject],
    is not among the sources. *)
Definition Service : Type := list (string * Document).

(** [config.Store], the interface of [configGetter]; of its methods the
    sources call [GetConfigData]. *)
Record Store : Type := {
  GetConfigData : string -> string -> string * option error;
}.

Record AppFile : Type := {
  Name : string;
  CreateTime : Z;
  UpdateTime : Z;
  Services : gmap string Service;
  Secrets : gmap string string;
  configGetter : Store;
}.

(** [types.EnvMeta]. *)
Record EnvMeta : Type := {
  env_Name : string;
  env_Namespace : string;
  env_Domain : string;
  env_Email : string;
  env_Issuer : string;
}.

(** [template.Manager]: the capability templates by name, each of one
    capability type. *)
Inductive CapType : Type := TypeWorkload | TypeTrait.

Record Template : Type := {
  Captype : CapType;
}.

Definition Manager : Type := gmap string Template.

Record TypeMeta : Type := {
  APIVersion : string;
  Kind : string;
}.

(** [runtime.RawExtension]. *)
Record RawExtension : Type := {
  Raw : string;
}.

(** Modelled from the spec: the rendered component of one service,
    with its name, workload type, workload settings, traits and scopes.
    The declaration of [v1alpha2.ApplicationComponent] is not among the
    sources, which set its field [Scopes]. *)
Record ApplicationComponent : Type := {
  comp_Name : string;
  WorkloadType : string;
  Settings : RawExtension;
  Traits : list (string * RawExtension);
  Scopes : RawExtension;
}.

(** [v1alpha2.Application]; [Components] is [Spec.Components]. *)
Record Application : Type := {
  app_TypeMeta : TypeMeta;
  app_Name : string;
  app_Namespace : string;
  Components : list ApplicationComponent;
}.

(** [v1alpha1.TypedReference], a reference to an object by type and
    name. *)
Record TypedReference : Type := {
  ref_APIVersion : string;
  ref_Kind : string;
  ref_Name : string;
  ref_UID : string;
}.

(** [v1alpha2.HealthScope]; [WorkloadReferences] is
    [Spec.WorkloadReferences]. *)
Record HealthScope : Type := {
  health_TypeMeta : TypeMeta;
  health_Name : string;
  health_Namespace : string;
  WorkloadReferences : list TypedReference;
}.

(** [v1.ConfigMap]. *)
Record ConfigMap : Type := {
  cm_Name : string;
  cm_Namespace : string;
  cm_Data : gmap string string;
}.

(** [oam.Object]: the assistant objects are config maps and health
    scopes. *)
Inductive Object : Type :=
| ObjConfigMap (cm : ConfigMap)
| ObjHealthScope (health : HealthScope).

(** What the sources call and do not define: the file system, the YAML
    and JSON libraries, package config, the constants of package
    v1alpha2 and the methods of [AppFile] and [Service] declared in
    other files of package appfile. *)
Class Externals : Type := {
  filepath_Clean : string -> string;
  ioutil_ReadFile : string -> string * option error;
  yaml_Unmarshal : string -> AppFile -> AppFile * option error;
  yaml_JSONToYAML : string -> string * option error;
  json_Valid : string -> bool;
  json_Marshal : gmap string string -> string * option error;
  config_Local : Store;
  config_DecodeConfigFormat : string -> gmap string string * option error;
  config_ToConfigMap :
    Store -> string -> string -> gmap string string -> ConfigMap * option error;
  config_GenConfigMapName : string -> string -> string -> string;
  SchemeGroupVersion : string;
  HealthScopeGroupVersion : string;
  HealthScopeKind : string;
  GetServices : AppFile -> gmap string Service;
  GetUserConfigName : Service -> string;
  RenderServiceToApplicationComponent :
    Service -> Manager -> string -> ApplicationComponent * option error;
}.

Section WithExternals.
Context `{Externals}.

Definition NewAppFile : AppFile :=
  {| Name := ""; CreateTime := 0; UpdateTime := 0;
     Services := ∅; Secrets := ∅; configGetter := config_Local |}.

Definition JSONToYaml (data : string) (appFile : AppFile)
    : option AppFile * option error :=
  match yaml_JSONToYAML data with
  | (_, Some e) => (None, Some e)
  | (j, None) =>
      match yaml_Unmarshal j appFile with
      | (_, Some err) => (None, Some err)
      | (appFile, None) => (Some appFile, None)
      end
  end.

(** [yaml.Unmarshal(b, af)] fills the struct [af] points to and leaves
    the pointer as it is. *)
Definition unmarshalInto (b : string) (af : AppFile)
    : option AppFile * option error :=
  let (af, err) := yaml_Unmarshal b af in (Some af, err).

Definition LoadFromFile (filename : string) : option AppFile * option error :=
  match ioutil_ReadFile (filepath_Clean filename) with
  | (_, Some err) => (None, Some err)
  | (b, None) =>
      let af := NewAppFile in
      let ext := Ext filename in
      let (af, err) :=
        if decide (ext = ".yaml" \/ ext = ".yml") then unmarshalInto b af
        else if decide (ext = ".json") then JSONToYaml b af
        else if json_Valid b then JSONToYaml b af
        else unmarshalInto b af in
      match err with
      | Some err => (None, Some err)
      | None => (af, None)
      end
  end.

Definition FormatDefaultHealthScopeName (appName : string) : string :=
  appName +:+ "-default-health".

Definition setScopes (c : ApplicationComponent) (scopes : RawExtension)
    : ApplicationComponent :=
  {| comp_Name := comp_Name c; WorkloadType := WorkloadType c;
     Settings := Settings c; Traits := Traits c; Scopes := scopes |}.

(** The application is passed by pointer: the function returns the
    health scope and leaves the components of the application with
    their [Scopes] set. *)
Definition addDefaultHealthScopeToApplication (app : Application)
    : Application * HealthScope :=
  let health :=
    {| health_TypeMeta :=
         {| APIVersion := HealthScopeGroupVersion; Kind := HealthScopeKind |};
       health_Name := FormatDefaultHealthScopeName (app_Name app);
       health_Namespace := app_Namespace app;
       WorkloadReferences := [] |} in
  let comps :=
    map (fun c =>
           let data :=
             fst (json_Marshal
                    {[ "healthscopes.core.oam.dev" := health_Name health ]}) in
           setScopes c {| Raw := data |})
        (Components app) in
  ({| app_TypeMeta := app_TypeMeta app; app_Name := app_Name app;
      app_Namespace := app_Namespace app; Components := comps |},
   health).

(** The variables of [BuildOAMApplication] that its loop updates, and
    what [io.Infof] has written. *)
Record build : Type := {
  assistantObjects : list Object;
  components : list ApplicationComponent;
  io_Out : list string;
}.

(** The body of the loop over the services, for one service. *)
Definition renderService (app : AppFile) (env : EnvMeta) (tm : Manager)
    (silence : bool) (st : build) (serviceName : string) (svc : Service)
    : build * option error :=
  let out :=
    if silence then io_Out st
    else io_Out st ++
         [newline +:+ "Rendering configs for service (" +:+ serviceName
          +:+ ")..." +:+ newline] in
  let failed err :=
    ({| assistantObjects := assistantObjects st;
        components := components st; io_Out := out |}, Some err) in
  let render objs :=
    match RenderServiceToApplicationComponent svc tm serviceName with
    | (_, Some err) => failed err
    | (comp, None) =>
        ({| assistantObjects := objs;
            components := components st ++ [comp]; io_Out := out |}, None)
    end in
  let configname := GetUserConfigName svc in
  if decide (configname <> "") then
    match GetConfigData (configGetter app) configname (env_Name env) with
    | (_, Some err) => failed err
    | (configData, None) =>
        match config_DecodeConfigFormat configData with
        | (_, Some err) => failed err
        | (decodedData, None) =>
            match config_ToConfigMap (configGetter app)
                    (config_GenConfigMapName (Name app) serviceName configname)
                    (env_Name env) decodedData with
            | (_, Some err) => failed err
            | (cm, None) => render (assistantObjects st ++ [ObjConfigMap cm])
            end
        end
    end
  else render (assistantObjects st).

(** The loop [for serviceName, svc := range app.GetServices()], on the
    entries in the order in which the range visits them. *)
Fixpoint rangeServices (app : AppFile) (env : EnvMeta) (tm : Manager)
    (silence : bool) (st : build) (order : list (string * Service))
    : build * option error :=
  match order with
  | [] => (st, None)
  | (serviceName, svc) :: order' =>
      match renderService app env tm silence st serviceName svc with
      | (st, Some err) => (st, Some err)
      | (st, None) => rangeServices app env tm silence st order'
      end
  end.

(** An order in which a [range] over the map can visit its entries. *)
Definition rangeOrder (m : gmap string Service)
    (order : list (string * Service)) : Prop :=
  order ≡ₚ map_to_list m.

(** [BuildOAMApplication], for the order [order] of the range over the
    services.  The first component is what was written to [io]; the
    second is the triple the Go function returns, in which [None] is
    the nil application and [[]] the nil slice. *)
Definition BuildOAMApplication (order : list (string * Service))
    (app : AppFile) (env : EnvMeta) (tm : Manager) (silence : bool)
    : list string * (option Application * list Object * option error) :=
  let st := {| assistantObjects := []; components := []; io_Out := [] |} in
  match rangeServices app env tm silence st order with
  | (st, Some err) => (io_Out st, (None, [], Some err))
  | (st, None) =>
      let servApp :=
        {| app_TypeMeta :=
             {| APIVersion := SchemeGroupVersion; Kind := "Application" |};
           app_Name := Name app; app_Namespace := env_Namespace env;
           Components := components st |} in
      let (servApp, health) := addDefaultHealthScopeToApplication servApp in
      (io_Out st,
       (Some servApp, assistantObjects st ++ [ObjHealthScope health], None))
  end.

End WithExternals.

End Appfile.

(** ** Package application: validation of an Appfile *)

Module Application.
Import Go Appfile.

(** [application.Application]: an Appfile with the template manager
    that knows the installed capabilities. *)
Record Application : Type := {
  AppFile : Appfile.AppFile;
  tm : Manager;
}.

(** Modelled from the spec: a name is a known trait capability when the
    template manager has a template of that name and of type trait, as
    the fake manager of [TestApplication] is filled. *)
Definition IsTrait (tm : Manager) (key : string) : bool :=
  match tm !! key with
  | Some t => match Captype t with TypeTrait => true | TypeWorkload => false end
  | None => false
  end.

(** Modelled from the spec: the value of a field is a mapping. *)
Definition isMapping (d : Document) : bool :=
  match d with DMap _ => true | _ => false end.

(** Modelled from the spec: [Validate] of package application is not
    among the sources, only its test [TestApplication] is.  Rule 3 of the
    Validator for the fields of one service: a field named like a known
    trait capability has a mapping value. *)
Fixpoint validateFields (tm : Manager) (serviceName : string)
    (fields : Service) : option error :=
  match fields with
  | [] => None
  | (traitName, traitData) :: fields' =>
      if IsTrait tm traitName && negb (isMapping traitData) then
        Some (errorString ("trait " +:+ traitName +:+ " in '" +:+ serviceName
                           +:+ "' must be map"))
      else validateFields tm serviceName fields'
  end.

(** Modelled from the spec: rule 3 of the Validator over the services,
    visited in the order [order]; the first failure ends the check. *)
Fixpoint validateServices (tm : Manager) (order : list (string * Service))
    : option error :=
  match order with
  | [] => None
  | (serviceName, svc) :: order' =>
      match validateFields tm serviceName svc with
      | Some err => Some err
      | None => validateServices tm order'
      end
  end.

(** Modelled from the spec: [Validate] of package application, the
    three rules of the Validator checked in their order, the first
    failure reported.  [order] is the order in which the services are
    visited. *)
Definition Validate (order : list (string * Service)) (app : Application)
    : option error :=
  if decide (Name (AppFile app) = "") then
    Some (errorString "name is required")
  else if decide (size (Services (AppFile app)) = 0) then
    Some (errorString "at least one service is required")
  else validateServices (tm app) order.

End Application.

(** ** Concrete collaborators and inputs, to run the definitions on *)

Module Samples.
Import Go Sets Appfile.


Definition sampleStore : Store :=
  {| GetConfigData := fun configName envName =>
       if decide (configName = "test") then ("FOO=bar", None)
       else ("", Some (errorString "config not found")) |}.

Definition scalarField (key : string) (svc : Service) : string :=
  match list_find (fun kv => fst kv = key) svc with
  | Some (_, (_, DScalar s)) => s
  | _ => ""
  end.

(** Collaborators that read one file, take the content of a file for
    the name of the application, and render a service that declares an
    image into a component of its name. *)
#[export] Instance sampleExternals : Externals := {|
  filepath_Clean := fun p => p;
  ioutil_ReadFile := fun p =>
    if decide (p = "Appfile") then ("{}", None)
    else if decide (p = "vela.yaml") then ("myapp", None)
    else ("", Some (errorString "no such file or directory"));
  yaml_Unmarshal := fun b af =>
    ({| Name := b; CreateTime := CreateTime af; UpdateTime := UpdateTime af;
        Services := Services af; Secrets := Secrets af;
        configGetter := configGetter af |}, None);
  yaml_JSONToYAML := fun b => (b, None);
  json_Valid := fun b => if decide (b = "{}") then true else false;
  json_Marshal := fun m =>
    (foldr (fun kv acc => fst kv +:+ "=" +:+ snd kv +:+ ";" +:+ acc) ""
           (map_to_list m), None);
  config_Local := sampleStore;
  config_DecodeConfigFormat := fun data => ({[ "data" := data ]}, None);
  config_ToConfigMap := fun store name envName data =>
    ({| cm_Name := name; cm_Namespace := envName; cm_Data := data |}, None);
  config_GenConfigMapName := fun appName serviceName configName =>
    appName +:+ "-" +:+ serviceName +:+ "-" +:+ configName;
  SchemeGroupVersion := "core.oam.dev/v1alpha2";
  HealthScopeGroupVersion := "core.oam.dev/v1alpha2";
  HealthScopeKind := "HealthScope";
  GetServices := Services;
  GetUserConfigName := scalarField "config";
  RenderServiceToApplicationComponent := fun svc tm serviceName =>
    let comp :=
      {| comp_Name := serviceName; WorkloadType := scalarField "type" svc;
         Settings := {| Raw := scalarField "image" svc |};
         Traits := []; Scopes := {| Raw := "" |} |} in
    if decide (scalarField "image" svc = "") then
      (comp, Some (errorString "image not defined"))
    else (comp, None);
|}.

Definition sampleEnv : EnvMeta :=
  {| env_Name := "up"; env_Namespace := "env-up"; env_Domain := "";
     env_Email := ""; env_Issuer := "up" |}.

(** The services of [yamlNormal] in [TestApplication]. *)
Definition frontend : Service :=
  [("image", DScalar "inanimate/echo-server");
   ("env", DMap [("PORT", DScalar "8080")]);
   ("autoscaling", DMap [("max", DScalar "10"); ("min", DScalar "1")]);
   ("rollout", DMap [("strategy", DScalar "canary"); ("step", DScalar "5")])].

Definition backend : Service :=
  [("type", DScalar "cloneset"); ("image", DScalar "back:v1")].

Definition appfileOf (name : string) (services : list (string * Service))
    : AppFile :=
  {| Name := name; CreateTime := 0; UpdateTime := 0;
     Services := list_to_map services; Secrets := ∅;
     configGetter := sampleStore |}.

Definition yamlNormal : AppFile :=
  appfileOf "myapp" [("frontend", frontend); ("backend", backend)].

Definition yamlNoService : AppFile := appfileOf "myapp" [].

Definition yamlNoName : AppFile :=
  appfileOf ""
    [("frontend",
      [("image", DScalar "inanimate/echo-server");
       ("env", DMap [("PORT", DScalar "8080")])])].

Definition yamlTraitNotMap : AppFile :=
  appfileOf "myapp"
    [("frontend",
      [("image", DScalar "inanimate/echo-server");
       ("env", DMap [("PORT", DScalar "8080")]);
       ("autoscaling", DScalar "10")])].

(** The fake template manager of the test, with the traits of a case. *)
Definition traitManager (traits : list string) : Manager :=
  list_to_map (map (fun k => (k, {| Captype := TypeTrait |})) traits).

(** A service with a configuration in the store. *)
Definition configured : Service :=
  [("image", DScalar "busybox"); ("config", DScalar "test")].

Definition yamlConfigured : AppFile :=
  appfileOf "myapp" [("frontend", frontend); ("worker", configured)].

(** A service without image, which the sample renderer refuses. *)
Definition broken : Service := [("type", DScalar "cloneset")].

Definition yamlBroken : AppFile :=
  appfileOf "myapp" [("frontend", frontend); ("broken", broken)].

End Samples.

(** ** Vocabulary of the statements *)

Module Statements.
Import Go Sets Appfile.

(** A path segment read as a base-10 natural number: a string of
    decimal digits that is not empty.  Leading zeros are accepted, a
    sign or any other character is not. *)
Definition readDecimal (s : string) : option nat :=
  Nat.of_uint <$> NilZero.uint_of_string s.

(** The node kinds that [lookUp] descends into. *)
Definition isContainer (node : Node) : bool :=
  match node with
  | File _ _ | ListLit _ _ | StructLit _ _ => true
  | _ => false
  end.

Definition isIdent (label : Node) : bool :=
  match label with Ident _ _ => true | _ => false end.

(** The nodes that implement [ast.Expr] and are not struct literals. *)
Definition isBareExpr (n : Node) : bool :=
  match n with
  | ListLit _ _ | Ident _ _ | BasicLit _ _ | ParenExpr _ _ => true
  | _ => false
  end.

Definition isFile (n : Node) : bool :=
  match n with File _ _ => true | _ => false end.

Definition isStructLit (n : Node) : bool :=
  match n with StructLit _ _ => true | _ => false end.

(** The relative position of the first token of an expression. *)
Definition relPos (n : Node) : option RelPos :=
  match n with
  | StructLit p _ | ListLit p _ | Ident p _ | BasicLit p _ | ParenExpr p _ =>
      Some p
  | _ => None
  end.





(** The sentence of the specification on a field without value: in a
    document with the declarations [decls], a field labelled [key] whose
    value is nil makes the walk along [key :: rest] end not found. *)
Definition nilFieldEndsWalk (decls : list Node) (key : string)
    (rest : list string) : Prop :=
  (exists label, Field label NilNode ∈ decls /\ labelStr label = key) ->
  lookUp (File "" decls) (key :: rest) = NotFound.

(** The sentence on labels that are not identifiers: the empty segment
    resolves to the value of any field of [decls] with such a label. *)
Definition emptySegmentReturnsField (decls : list Node)
    (rest : list string) : Prop :=
  forall label value,
    Field label value ∈ decls -> isIdent label = false ->
    lookUp (File "" decls) ("" :: rest) = lookUp value rest.

(** The sentence on unsupported nodes: the conversion of a node that is
    no struct literal, no expression and no file panics. *)
Definition unsupportedPanics (n : Node) : Prop :=
  isStructLit n = false -> isBareExpr n = false -> isFile n = false ->
  exists msg, toFile n = Panic msg.

(** What the body of the loop of [BuildOAMApplication] computes for one
    service, apart from the variables it updates: the assistant objects
    and the component of the service, or the error that ends the
    call. *)
Definition serviceResult `{Externals} (app : AppFile) (env : EnvMeta)
    (tm : Manager) (serviceName : string) (svc : Service)
    : list Object * ApplicationComponent + error :=
  let render objs :=
    match RenderServiceToApplicationComponent svc tm serviceName with
    | (_, Some err) => inr err
    | (comp, None) => inl (objs, comp)
    end in
  let configname := GetUserConfigName svc in
  if decide (configname <> "") then
    match GetConfigData (configGetter app) configname (env_Name env) with
    | (_, Some err) => inr err
    | (configData, None) =>
        match config_DecodeConfigFormat configData with
        | (_, Some err) => inr err
        | (decodedData, None) =>
            match config_ToConfigMap (configGetter app)
                    (config_GenConfigMapName (Name app) serviceName configname)
                    (env_Name env) decodedData with
            | (_, Some err) => inr err
            | (cm, None) => render [ObjConfigMap cm]
            end
        end
    end
  else render [].

(** The results of the services of a call put together: all the
    objects and components, or the first error. *)
Fixpoint collect (results : list (list Object * ApplicationComponent + error))
    : list Object * list ApplicationComponent + error :=
  match results with
  | [] => inl ([], [])
  | inr err :: _ => inr err
  | inl (objs, comp) :: results' =>
      match collect results' with
      | inl (objs', comps) => inl (objs ++ objs', comp :: comps)
      | inr err => inr err
      end
  end.

(** The results of the services in the order of the range. *)
Definition resultsOf `{Externals} (app : AppFile) (env : EnvMeta)
    (tm : Manager) (order : list (string * Service))
    : list (list Object * ApplicationComponent + error) :=
  (fun entry => serviceResult app env tm (fst entry) (snd entry)) <$> order.

(** The application that [BuildOAMApplication] passes to
    [addDefaultHealthScopeToApplication]. *)
Definition rendered `{Externals} (app : AppFile) (env : EnvMeta)
    (comps : list ApplicationComponent) : Application :=
  {| app_TypeMeta :=
       {| APIVersion := SchemeGroupVersion; Kind := "Application" |};
     app_Name := Name app; app_Namespace := env_Namespace env;
     Components := comps |}.

(** The ways in which the rendering of one service fails: the fetch of
    its configuration from the store, the decoding of the configuration,
    the making of the config map, the rendering of the component. *)
Inductive serviceFails `{Externals} (app : AppFile) (env : EnvMeta)
    (tm : Manager) (serviceName : string) (svc : Service) : error -> Prop :=
| fetchFails configData err :
    GetUserConfigName svc <> "" ->
    GetConfigData (configGetter app) (GetUserConfigName svc) (env_Name env)
      = (configData, Some err) ->
    serviceFails app env tm serviceName svc err
| decodeFails configData decodedData err :
    GetUserConfigName svc <> "" ->
    GetConfigData (configGetter app) (GetUserConfigName svc) (env_Name env)
      = (configData, None) ->
    config_DecodeConfigFormat configData = (decodedData, Some err) ->
    serviceFails app env tm serviceName svc err
| configMapFails configData decodedData cm err :
    GetUserConfigName svc <> "" ->
    GetConfigData (configGetter app) (GetUserConfigName svc) (env_Name env)
      = (configData, None) ->
    config_DecodeConfigFormat configData = (decodedData, None) ->
    config_ToConfigMap (configGetter app)
      (config_GenConfigMapName (Name app) serviceName (GetUserConfigName svc))
      (env_Name env) decodedData = (cm, Some err) ->
    serviceFails app env tm serviceName svc err
| renderFails comp err :
    RenderServiceToApplicationComponent svc tm serviceName = (comp, Some err) ->
    serviceFails app env tm serviceName svc err.

(** The scopes of a component that names the health scope [name]. *)
Definition scopesOf `{Externals} (name : string) : RawExtension :=
  {| Raw := fst (json_Marshal {[ "healthscopes.core.oam.dev" := name ]}) |}.

(** The sentence of the specification on the health scope: a call that
    returns an application returns a health scope of the default name
    that refers to every component of the application by name. *)
Definition healthReferencesComponents `{Externals}
    (order : list (string * Service)) (app : AppFile) (env : EnvMeta)
    (tm : Manager) (silence : bool) : Prop :=
  forall servApp objs,
    snd (BuildOAMApplication order app env tm silence)
      = (Some servApp, objs, None) ->
    exists health,
      ObjHealthScope health ∈ objs /\
      health_Name health = Name app +:+ "-default-health" /\
      forall c, c ∈ Components servApp ->
        exists r, r ∈ WorkloadReferences health /\ ref_Name r = comp_Name c.

(** The sentence on determinism: two calls on the same inputs, whatever
    the order in which each ranges over the services, return the same. *)
Definition renderDeterministic `{Externals} (app : AppFile) (env : EnvMeta)
    (tm : Manager) (silence : bool) : Prop :=
  forall order1 order2,
    rangeOrder (GetServices app) order1 ->
    rangeOrder (GetServices app) order2 ->
    snd (BuildOAMApplication order1 app env tm silence)
      = snd (BuildOAMApplication order2 app env tm silence).

(** Two results of [BuildOAMApplication] that differ by the order of
    the range only: both are errors without application and objects, or
    both are applications of the same name, namespace and type with the
    same components in some order, followed by the same config maps in
    some order and the same health scope. *)
Definition agreeUpToOrder
    (r1 r2 : option Application * list Object * option error) : Prop :=
  (exists a1 a2 objs1 objs2 health,
     r1 = (Some a1, objs1 ++ [ObjHealthScope health], None) /\
     r2 = (Some a2, objs2 ++ [ObjHealthScope health], None) /\
     app_TypeMeta a1 = app_TypeMeta a2 /\ app_Name a1 = app_Name a2 /\
     app_Namespace a1 = app_Namespace a2 /\
     Components a1 ≡ₚ Components a2 /\ objs1 ≡ₚ objs2) \/
  (exists e1 e2, r1 = (None, [], Some e1) /\ r2 = (None, [], Some e2)).

(** The health scope of an application and its link to the components:
    the objects are config maps followed by the one health scope, which
    has the default name, the namespace of the environment and no
    workload reference; every component names the health scope in its
    scopes. *)
Definition healthScopeLinked `{Externals} (app : AppFile) (env : EnvMeta)
    (servApp : Application) (objs : list Object) : Prop :=
  exists cms health,
    objs = (ObjConfigMap <$> cms) ++ [ObjHealthScope health] /\
    health_Name health = Name app +:+ "-default-health" /\
    health_Namespace health = env_Namespace env /\
    WorkloadReferences health = [] /\
    app_Name servApp = Name app /\
    Forall (fun c => Scopes c = scopesOf (health_Name health))
           (Components servApp).

(** The bytes [b] taken for YAML. *)
Definition parseAsYAML `{Externals} (b : string)
    : option AppFile * option error :=
  match yaml_Unmarshal b NewAppFile with
  | (_, Some err) => (None, Some err)
  | (af, None) => (Some af, None)
  end.

(** The bytes [b] taken for JSON: converted to YAML, then read as
    YAML. *)
Definition parseAsJSON `{Externals} (b : string)
    : option AppFile * option error :=
  match yaml_JSONToYAML b with
  | (_, Some err) => (None, Some err)
  | (j, None) => parseAsYAML j
  end.

(** What the specification says of the format in which a file is read:
    by its extension, and by its content when the extension tells
    nothing. *)
Definition formatByExtension `{Externals} (filename b : string)
    : option AppFile * option error :=
  if decide (Ext filename = ".yaml" \/ Ext filename = ".yml") then
    parseAsYAML b
  else if decide (Ext filename = ".json") then parseAsJSON b
  else if json_Valid b then parseAsJSON b
  else parseAsYAML b.

(** The error of a trait whose value is no mapping. *)
Definition traitMustBeMap (traitName serviceName : string) : error :=
  errorString ("trait " +:+ traitName +:+ " in '" +:+ serviceName
               +:+ "' must be map").

(** The three rules of the Validator on an application: the name, the
    number of services, the fields named like a trait. *)
Definition traitsAreMaps (app : Application.Application) : Prop :=
  forall serviceName svc traitName traitData,
    Services (Application.AppFile app) !! serviceName = Some svc ->
    (traitName, traitData) ∈ svc ->
    Application.IsTrait (Application.tm app) traitName = true ->
    Application.isMapping traitData = true.

Definition validatorRules (order : list (string * Service))
    (app : Application.Application) : Prop :=
  let name := Name (Application.AppFile app) in
  let services := Services (Application.AppFile app) in
  (Application.Validate order app = None <->
   name <> "" /\ 1 <= size services /\ traitsAreMaps app) /\
  (name = "" ->
   Application.Validate order app = Some (errorString "name is required")) /\
  (name <> "" -> size services = 0 ->
   Application.Validate order app
     = Some (errorString "at least one service is required")) /\
  (forall err,
     name <> "" -> 1 <= size services ->
     Application.Validate order app = Some err ->
     exists serviceName svc traitName traitData,
       services !! serviceName = Some svc /\
       (traitName, traitData) ∈ svc /\
       Application.IsTrait (Application.tm app) traitName = true /\
       Application.isMapping traitData = false /\
       err = traitMustBeMap traitName serviceName).

End Statements.

(** ** Package appfile, continued: the default paths and the labels *)

Module AppfileDefaults.
Import Go Appfile.

Definition DefaultJSONAppfilePath : string := "./vela.json".
Definition DefaultAppfilePath : string := "./vela.yaml".
Definition DefaultUnknowFormatAppfilePath : string := "./Appfile".

(** What [Load] and [addWorkloadTypeLabel] call beyond [Externals]:
    [os.Stat], of which the error is looked at, the method [GetType] of
    [Service] and the constant [oam.WorkloadTypeLabel]. *)
Class Platform : Type := {
  os_Stat : string -> option error;
  GetType : Service -> string;
  WorkloadTypeLabel : string;
}.

Definition Load `{Externals} `{Platform} : option AppFile * option error :=
  match os_Stat DefaultAppfilePath with
  | None => LoadFromFile DefaultAppfilePath
  | Some _ =>
      match os_Stat DefaultJSONAppfilePath with
      | None => LoadFromFile DefaultJSONAppfilePath
      | Some _ => LoadFromFile DefaultUnknowFormatAppfilePath
      end
  end.

(** A [runtime.Object]: an [*unstructured.Unstructured] with its labels,
    which [GetLabels] reads and [SetLabels] writes, [None] being the nil
    map, and with the rest of its content; an object of another type;
    or nil. *)
Inductive RuntimeObject : Type :=
| Unstructured (labels : option (gmap string string)) (content : string)
| OtherObject (type : string)
| NilObject.

(** [v1alpha2.Component]; [Workload] is [Spec.Workload.Object]. *)
Record Component : Type := {
  component_Name : string;
  Workload : RuntimeObject;
}.

(** The body of the loop of [addWorkloadTypeLabel] for one component:
    the component with its workload labelled, or the message of the
    panic of the type assertion.  The services of a name that the map
    does not have are the nil map, which has no field. *)
Definition labelWorkload `{Platform} (services : gmap string Service)
    (comp : Component) : outcome Component :=
  let workloadType := GetType (default [] (services !! component_Name comp)) in
  match Workload comp with
  | Unstructured labels content =>
      let labels :=
        match labels with
        | None => {[ WorkloadTypeLabel := workloadType ]}
        | Some labels => <[ WorkloadTypeLabel := workloadType ]> labels
        end in
      Return {| component_Name := component_Name comp;
                Workload := Unstructured (Some labels) content |}
  | OtherObject type =>
      Panic ("interface conversion: runtime.Object is " +:+ type +:+
             ", not *unstructured.Unstructured")
  | NilObject =>
      Panic "interface conversion: runtime.Object is nil, not *unstructured.Unstructured"
  end.

(** The components are pointers and are labelled in place: the result
    is the list as the function leaves it, and the panic that ended the
    loop, if any. *)
Fixpoint addWorkloadTypeLabel `{Platform} (comps : list Component)
    (services : gmap string Service) : list Component * option string :=
  match comps with
  | [] => ([], None)
  | comp :: comps' =>
      match labelWorkload services comp with
      | Panic msg => (comp :: comps', Some msg)
      | Return comp =>
          let (comps', panic) := addWorkloadTypeLabel comps' services in
          (comp :: comps', panic)
      end
  end.

End AppfileDefaults.

(** ** Package commands: capabilities and remote appfiles *)

Module Commands.
Import Go Appfile.

(** [types.Parameter] and [types.Capability], with the fields that the
    sources read. *)
Record CapParameter : Type := {
  param_Name : string;
  Usage : string;
  Required : bool;
}.

Record Capability : Type := {
  cap_Name : string;
  cap_Parameters : list CapParameter;
}.

(** [types.Capability{}]. *)
Definition zeroCapability : Capability :=
  {| cap_Name := ""; cap_Parameters := [] |}.

Fixpoint GetCapabilityByName (name : string) (workloads : list Capability)
    : Capability * option error :=
  match workloads with
  | [] => (zeroCapability, Some (errorString (name +:+ " not found")))
  | v :: workloads' =>
      if decide (cap_Name v = name) then (v, None)
      else GetCapabilityByName name workloads'
  end.

(** [common.HTTPGet] and [ioutil.WriteFile]. *)
Class Network : Type := {
  HTTPGet : string -> string * option error;
  ioutil_WriteFile : string -> string -> option error;
}.

(** The result of [saveRemoteAppfile] and the files it wrote, each with
    its content. *)
Definition saveRemoteAppfile `{Network} (url : string)
    : (string * option error) * list (string * string) :=
  match HTTPGet url with
  | (_, Some err) => (("", Some err), [])
  | (body, None) =>
      let ext := Ext url in
      let dest :=
        if decide (ext = ".json") then "vela.json"
        else if decide (ext = ".yaml" \/ ext = ".yml") then "vela.yaml"
        else "Appfile" in
      ((dest, ioutil_WriteFile dest body), [(dest, body)])
  end.

End Commands.

(** ** Package build: the image of a service *)

Module GoStrings.

(** [strings.Split] for a separator of one byte: the parts of [s]
    between the separators, one more than there are separators. *)
Fixpoint Split (s : string) (sep : ascii) : list string :=
  match s with
  | EmptyString => [""]
  | String a s' =>
      if decide (a = sep) then "" :: Split s' sep
      else
        match Split s' sep with
        | part :: parts => String a part :: parts
        | [] => [String a ""]
        end
  end.

(** [strings.Join]. *)
Fixpoint Join (elems : list string) (sep : string) : string :=
  match elems with
  | [] => ""
  | [elem] => elem
  | elem :: elems' => elem +:+ sep +:+ Join elems' sep
  end.

End GoStrings.

Module Build.
Import Go GoStrings.

(** The error of a [Read]: [io.EOF], or another error. *)
Inductive readError : Type :=
| EOF
| readFailure (err : error).

Definition isEOF (err : option readError) : bool :=
  match err with Some EOF => true | _ => false end.

(** The loop of [asyncLog] from the state [cache], on a reader that
    answers the calls of [Read] with [reads], each answer the bytes read
    and the error.  The result is what [stream.Infof] was called to
    write, call by call, and whether the function returned: when the
    answers end without [io.EOF] the next [Read] blocks. *)
Fixpoint asyncLogFrom (cache : string)
    (reads : list (string * option readError)) : list string * bool :=
  match reads with
  | [] => ([], false)
  | (b, err) :: reads' =>
      if isEOF err then ([], true)
      else if decide (0 < String.length b) then
        let s := Split b (ascii_of_nat 10) in
        let line := Join (removelast s) newline in
        let written := cache +:+ line +:+ newline in
        if isEOF err then ([written], true)
        else
          let (out, returned) := asyncLogFrom (List.last s "") reads' in
          (written :: out, returned)
      else if isEOF err then ([], true)
      else asyncLogFrom cache reads'
  end.

Definition asyncLog (reads : list (string * option readError))
    : list string * bool :=
  asyncLogFrom "" reads.

Record Docker : Type := {
  File : string;
  Context : string;
}.

Record Push : Type := {
  Local : string;
  Registry : string;
}.

(** [Build], the build section of an Appfile. *)
Record Build : Type := {
  build_Push : Push;
  build_Docker : Docker;
}.

(** A value of type [interface{}]: a string or something else. *)
Inductive value : Type :=
| stringValue (s : string)
| otherValue.

(** What was written to the [IOStreams] by [Infof], and by [Errorf]
    with a format and the error whose message fills it. *)
Inductive logEntry : Type :=
| Infof (text : string)
| Errorf (format : string) (err : error).

(** The commands that were started, each with its arguments, and what
    the caller wrote to the [IOStreams].  The two goroutines that copy
    the output of a running command to the [IOStreams] run beside the
    caller; what they write is not in this state. *)
Record process : Type := {
  started : list (list string);
  written : list logEntry;
}.

(** Package [exec], for the command of the given arguments after the
    commands started so far, and what [handle] takes from its context:
    the parameters and their encoding, and [ctx.LookUp]. *)
Class Exec : Type := {
  StdoutPipe : list (list string) -> list string -> option error;
  StderrPipe : list (list string) -> list string -> option error;
  Start : list (list string) -> list string -> option error;
  Wait : list (list string) -> list string -> option error;
  Params : Type;
  json_MarshalParams : Params -> string * option error;
  json_UnmarshalBuild : string -> Build -> Build * option error;
  LookUp : string -> value * option error;
}.

Definition logged (st : process) (entry : logEntry) : process :=
  {| started := started st; written := written st ++ [entry] |}.

(** The steps that each of the three commands of the package goes
    through: the two pipes, the start, the wait, with the formats of the
    messages of the caller. *)
Definition runCommand `{Exec} (st : process) (argv : list string)
    (execFormat waitFormat : string) : process * option error :=
  match StdoutPipe (started st) argv with
  | Some err => (logged st (Errorf execFormat err), Some err)
  | None =>
      match StderrPipe (started st) argv with
      | Some err => (logged st (Errorf execFormat err), Some err)
      | None =>
          match Start (started st) argv with
          | Some err => (logged st (Errorf execFormat err), Some err)
          | None =>
              let st' :=
                {| started := started st ++ [argv]; written := written st |} in
              match Wait (started st) argv with
              | Some err => (logged st' (Errorf waitFormat err), Some err)
              | None => (st', None)
              end
          end
      end
  end.

Definition pushImage `{Exec} (b : Build) (st : process) (image : string)
    : process * option error :=
  let st := logged st (Infof ("pushing image (" +:+ image +:+ ")..." +:+ newline)) in
  if decide (Local (build_Push b) = "kind") then
    runCommand st ["kind"; "load"; "docker-image"; image]
      ("pushImage(kind) exec command error, message:%s" +:+ newline)
      "pushImage(kind) wait for command execution error:%s"
  else
    runCommand st ["docker"; "push"; image]
      ("pushImage(docker push) exec command error, message:%s" +:+ newline)
      "pushImage(docker push) wait for command execution error:%s".

Definition buildImage `{Exec} (b : Build) (st : process) (image : string)
    : process * option error :=
  match runCommand st
          ["docker"; "build"; "-t"; image; "-f"; File (build_Docker b);
           Context (build_Docker b)]
          ("BuildImage exec command error, message:%s" +:+ newline)
          "BuildImage wait for command execution error:%s" with
  | (st, Some err) => (st, Some err)
  | (st, None) => pushImage b st image
  end.

(** [new(Build)]. *)
Definition newBuild : Build :=
  {| build_Push := {| Local := ""; Registry := "" |};
     build_Docker := {| File := ""; Context := "" |} |}.

Definition handle `{Exec} (st : process) (params : Params)
    : process * option error :=
  match json_MarshalParams params with
  | (_, Some err) => (st, Some err)
  | (pm, None) =>
      match json_UnmarshalBuild pm newBuild with
      | (_, Some err) => (st, Some err)
      | (b, None) =>
          match LookUp "image" with
          | (_, Some err) => (st, Some err)
          | (v, None) =>
              match v with
              | otherValue => (st, Some (errorString "image must be string"))
              | stringValue image =>
                  match buildImage b st image with
                  | (st, Some err) => (st, Some err)
                  | (st, None) =>
                      match pushImage b st image with
                      | (st, Some err) => (st, Some err)
                      | (st, None) => (st, None)
                      end
                  end
              end
          end
      end
  end.

End Build.

(** ** Vocabulary of the further statements *)

Module Vocabulary.
Import Go Sets Appfile.

Definition isField (n : Node) : bool :=
  match n with Field _ _ => true | _ => false end.

(** A field with the label [key]. *)
Definition hasLabel (key : string) (n : Node) : bool :=
  match n with
  | Field label _ => bool_decide (labelStr label = key)
  | _ => false
  end.

(** The rest of a walk after its first part: on the node the first part
    reached, or not found when the first part was. *)
Definition andThen (r : Node * option error) (paths : list string)
    : Node * option error :=
  match r with
  | (n, None) => lookUp n paths
  | (_, Some _) => NotFound
  end.

(** The line that [BuildOAMApplication] writes for a service. *)
Definition renderingMessage (serviceName : string) : string :=
  newline +:+ "Rendering configs for service (" +:+ serviceName +:+ ")..."
  +:+ newline.

(** The services that the loop of [BuildOAMApplication] reaches: those
    of the order up to the first whose rendering fails, that one
    included. *)
Fixpoint visited `{Externals} (app : AppFile) (env : EnvMeta) (tm : Manager)
    (order : list (string * Service)) : list string :=
  match order with
  | [] => []
  | (serviceName, svc) :: order' =>
      serviceName ::
      match Statements.serviceResult app env tm serviceName svc with
      | inl _ => visited app env tm order'
      | inr _ => []
      end
  end.

(** A component without its scopes. *)
Definition withoutScopes (c : ApplicationComponent) : ApplicationComponent :=
  setScopes c {| Raw := "" |}.

(** The config map of a service that names a configuration: what the
    store, the decoder and [config.ToConfigMap] make of the
    configuration, under the name generated from the application, the
    service and the configuration. *)
Definition configMapOf `{Externals} (app : AppFile) (env : EnvMeta)
    (entry : string * Service) (cm : ConfigMap) : Prop :=
  exists configData decodedData,
    GetConfigData (configGetter app) (GetUserConfigName (snd entry))
      (env_Name env) = (configData, None) /\
    config_DecodeConfigFormat configData = (decodedData, None) /\
    config_ToConfigMap (configGetter app)
      (config_GenConfigMapName (Name app) (fst entry)
         (GetUserConfigName (snd entry)))
      (env_Name env) decodedData = (cm, None).

(** The component of a service in a rendered application: what
    [RenderServiceToApplicationComponent] returns for the service, with
    the scopes that name the health scope of the application. *)
Definition componentOf `{Externals} (app : AppFile) (tm : Manager)
    (entry : string * Service) (c : ApplicationComponent) : Prop :=
  exists comp,
    RenderServiceToApplicationComponent (snd entry) tm (fst entry)
      = (comp, None) /\
    c = setScopes comp
          (Statements.scopesOf (FormatDefaultHealthScopeName (Name app))).

(** A component after [addWorkloadTypeLabel]: the same name and the
    same workload, whose labels are those it had, with the type of the
    service of its name under the key of the workload type. *)
Definition labelled `{AppfileDefaults.Platform} (services : gmap string Service)
    (c c' : AppfileDefaults.Component) : Prop :=
  AppfileDefaults.component_Name c' = AppfileDefaults.component_Name c /\
  exists labels content labels',
    AppfileDefaults.Workload c = AppfileDefaults.Unstructured labels content /\
    AppfileDefaults.Workload c'
      = AppfileDefaults.Unstructured (Some labels') content /\
    labels' !! AppfileDefaults.WorkloadTypeLabel
      = Some (AppfileDefaults.GetType
                (default [] (services !! AppfileDefaults.component_Name c))) /\
    forall key,
      key <> AppfileDefaults.WorkloadTypeLabel ->
      labels' !! key = default ∅ labels !! key.

Definition isUnstructured (c : AppfileDefaults.Component) : bool :=
  match AppfileDefaults.Workload c with
  | AppfileDefaults.Unstructured _ _ => true
  | _ => false
  end.

(** The byte [c] occurs in [s]. *)
Fixpoint contains (c : ascii) (s : string) : bool :=
  match s with
  | EmptyString => false
  | String a s' => if decide (a = c) then true else contains c s'
  end.

Definition lineFeed : ascii := ascii_of_nat 10.

(** The strings of a list one after the other. *)
Definition concatenated (l : list string) : string :=
  foldr String.append "" l.

(** The bytes that a reader delivers before it first answers with
    [io.EOF], answer by answer. *)
Fixpoint dataBeforeEOF (reads : list (string * option Build.readError))
    : list string :=
  match reads with
  | [] => []
  | (b, err) :: reads' =>
      if Build.isEOF err then [] else b :: dataBeforeEOF reads'
  end.

(** The commands of [buildImage] and of [pushImage]. *)
Definition buildCommand (b : Build.Build) (image : string) : list string :=
  ["docker"; "build"; "-t"; image; "-f"; Build.File (Build.build_Docker b);
   Build.Context (Build.build_Docker b)].

Definition pushCommand (b : Build.Build) (image : string) : list string :=
  if decide (Build.Local (Build.build_Push b) = "kind") then
    ["kind"; "load"; "docker-image"; image]
  else ["docker"; "push"; image].

End Vocabulary.

(** ** Further collaborators and inputs *)

Module MoreSamples.
Import Go Appfile AppfileDefaults Commands Build.

(** The collaborators of [Samples], with the files of the default
    paths: a [vela.json] and an [Appfile], and no [vela.yaml]. *)
#[export] Instance defaultPaths : Externals := {|
  filepath_Clean := fun p =>
    match p with
    | String "."%char (String "/"%char rest) => rest
    | _ => p
    end;
  ioutil_ReadFile := fun p =>
    if decide (p = "vela.json") then ("name: fromjson", None)
    else if decide (p = "Appfile") then ("{}", None)
    else ("", Some (errorString "no such file or directory"));
  yaml_Unmarshal := @yaml_Unmarshal Samples.sampleExternals;
  yaml_JSONToYAML := fun b => ("json:" +:+ b, None);
  json_Valid := @json_Valid Samples.sampleExternals;
  json_Marshal := @json_Marshal Samples.sampleExternals;
  config_Local := Samples.sampleStore;
  config_DecodeConfigFormat := @config_DecodeConfigFormat Samples.sampleExternals;
  config_ToConfigMap := @config_ToConfigMap Samples.sampleExternals;
  config_GenConfigMapName := @config_GenConfigMapName Samples.sampleExternals;
  SchemeGroupVersion := "core.oam.dev/v1alpha2";
  HealthScopeGroupVersion := "core.oam.dev/v1alpha2";
  HealthScopeKind := "HealthScope";
  GetServices := Services;
  GetUserConfigName := Samples.scalarField "config";
  RenderServiceToApplicationComponent :=
    @RenderServiceToApplicationComponent Samples.sampleExternals;
|}.

#[export] Instance samplePlatform : Platform := {|
  os_Stat := fun p =>
    if decide (p = "./vela.json" \/ p = "./Appfile") then None
    else Some (errorString "no such file or directory");
  GetType := fun svc =>
    match Samples.scalarField "type" svc with
    | "" => "webservice"
    | t => t
    end;
  WorkloadTypeLabel := "workload.oam.dev/type";
|}.

#[export] Instance sampleNetwork : Network := {|
  HTTPGet := fun url =>
    if decide (url = "https://example.com/app/vela.json") then ("{}", None)
    else ("", Some (errorString "not found"));
  ioutil_WriteFile := fun path content => None;
|}.

Definition sampleCapabilities : list Capability :=
  [{| cap_Name := "webservice"; cap_Parameters := [] |};
   {| cap_Name := "route";
      cap_Parameters :=
        [{| param_Name := "domain"; Usage := ""; Required := true |}] |};
   {| cap_Name := "route"; cap_Parameters := [] |}].

Definition sampleComponents : list Component :=
  [{| component_Name := "frontend";
      Workload := Unstructured None "Deployment" |};
   {| component_Name := "backend";
      Workload := Unstructured (Some {[ "app" := "back" ]}) "CloneSet" |}].

(** Commands that all succeed but the second push. *)
#[export] Instance sampleExec : Exec := {|
  StdoutPipe := fun started argv => None;
  StderrPipe := fun started argv => None;
  Start := fun started argv => None;
  Wait := fun started argv =>
    if decide (length started = 2) then Some (errorString "exit status 1")
    else None;
  Params := string;
  json_MarshalParams := fun params => (params, None);
  json_UnmarshalBuild := fun pm b =>
    ({| build_Push := {| Local := pm; Registry := "" |};
        build_Docker := {| File := "Dockerfile"; Context := "." |} |}, None);
  LookUp := fun key =>
    if decide (key = "image") then (stringValue "myapp:v1", None)
    else (otherValue, Some notFoundErr);
|}.

(** Commands that all succeed. *)
#[export] Instance successfulExec : Exec := {|
  StdoutPipe := fun started argv => None;
  StderrPipe := fun started argv => None;
  Start := fun started argv => None;
  Wait := fun started argv => None;
  Params := string;
  json_MarshalParams := fun params => (params, None);
  json_UnmarshalBuild := fun pm b =>
    ({| build_Push := {| Local := pm; Registry := "" |};
        build_Docker := {| File := "Dockerfile"; Context := "." |} |}, None);
  LookUp := fun key =>
    if decide (key = "image") then (stringValue "myapp:v1", None)
    else (otherValue, Some notFoundErr);
|}.

Definition freshProcess : process := {| started := []; written := [] |}.

End MoreSamples.

(** * Properties *)

Import Go Sets Statements.

(** ** Decimal numerals *)

Lemma to_uint_not_Nil (i : nat) : Nat.to_uint i <> Nil.
Proof.
  intros E. pose proof (Unsigned.of_to i) as Hi. rewrite E in Hi.
  cbn in Hi. subst i. discriminate E.
Qed.

Lemma readDecimal_Itoa (i : nat) : readDecimal (Itoa i) = Some i.
Proof.
  unfold readDecimal, Itoa. rewrite NilZero.usu by apply to_uint_not_Nil.
  cbn. f_equal. apply Unsigned.of_to.
Qed.

Lemma Itoa_inj (i j : nat) : Itoa i = Itoa j -> i = j.
Proof.
  intros E. apply (f_equal readDecimal) in E. rewrite !readDecimal_Itoa in E.
  congruence.
Qed.

(** ** The path resolver *)

Section Resolver.
Variable next : Node -> Node * option error.

Lemma rangeElts_hit (key : string) (elts : list Node) :
  forall (index j : nat) (elt : Node),
    elts !! j = Some elt -> key = Itoa (index + j) ->
    rangeElts next key index elts = next elt.
Proof.
  induction elts as [|e elts IH]; intros index j elt Hj Hkey.
  - discriminate Hj.
  - destruct j as [|j]; cbn in Hj |- *.
    + injection Hj as ->. rewrite Nat.add_0_r in Hkey.
      destruct (decide (Itoa index = key)); congruence.
    + destruct (decide (Itoa index = key)) as [E|_].
      * rewrite Hkey in E. apply Itoa_inj in E. lia.
      * apply (IH (S index) j); [exact Hj|].
        rewrite Hkey. f_equal. lia.
Qed.

Lemma rangeElts_miss (key : string) (elts : list Node) :
  forall index : nat,
    (forall j, j < length elts -> Itoa (index + j) <> key) ->
    rangeElts next key index elts = NotFound.
Proof.
  induction elts as [|e elts IH]; intros index Hmiss; [reflexivity|].
  cbn. destruct (decide (Itoa index = key)) as [E|_].
  - exfalso. apply (Hmiss 0); [cbn; lia|]. rewrite Nat.add_0_r. exact E.
  - apply IH. intros j Hj.
    replace (S index + j) with (index + S j) by lia.
    apply Hmiss. cbn. lia.
Qed.

Lemma rangeElts_cases (key : string) (elts : list Node) (index : nat) :
  rangeElts next key index elts = NotFound \/
  exists j elt, elts !! j = Some elt /\ key = Itoa (index + j) /\
                rangeElts next key index elts = next elt.
Proof.
  revert index. induction elts as [|e elts IH]; intros index; [by left|].
  cbn. destruct (decide (Itoa index = key)) as [E|_].
  - right. exists 0, e. rewrite Nat.add_0_r. done.
  - destruct (IH (S index)) as [->|(j & elt & Hj & Hkey & ->)]; [by left|].
    right. exists (S j), elt. split; [exact Hj|]. split; [|done].
    rewrite Hkey. f_equal. lia.
Qed.

Lemma rangeDecls_skip (key : string) (pre post : list Node) (d : Node) :
  lookField d key = NilNode ->
  rangeDecls next key (pre ++ d :: post) = rangeDecls next key (pre ++ post).
Proof.
  intros Hd. induction pre as [|p pre IH]; cbn.
  - by rewrite Hd.
  - by rewrite IH.
Qed.

Lemma rangeDecls_miss (key : string) (decls : list Node) :
  (forall d, d ∈ decls -> lookField d key = NilNode) ->
  rangeDecls next key decls = NotFound.
Proof.
  induction decls as [|d decls IH]; intros Hall; [reflexivity|].
  cbn. rewrite (Hall d) by left. cbn. apply IH.
  intros d' Hd'. apply Hall. by right.
Qed.

Lemma rangeDecls_first (key : string) (pre post : list Node) (d : Node) :
  (forall d', d' ∈ pre -> lookField d' key = NilNode) ->
  lookField d key <> NilNode ->
  rangeDecls next key (pre ++ d :: post) = next (lookField d key).
Proof.
  intros Hpre Hd. induction pre as [|p pre IH]; cbn.
  - destruct (lookField d key); cbn; congruence.
  - rewrite (Hpre p) by left. cbn. apply IH.
    intros d' Hd'. apply Hpre. by right.
Qed.

Lemma rangeDecls_shape (P : Node * option error -> Prop) (key : string)
    (decls : list Node) :
  P NotFound -> (forall n, P (next n)) -> P (rangeDecls next key decls).
Proof.
  intros Hnf Hnext. induction decls as [|d decls IH]; cbn; [exact Hnf|].
  destruct (isNil (lookField d key)); [exact IH|apply Hnext].
Qed.

End Resolver.

(** C5. On a list literal the first path segment selects an element by
    position.  The element at position [i] is reached by the decimal
    numeral of [i]; a walk that goes on into an element was given a
    segment that reads as a base-10 natural number naming an existing
    position; a segment that is not a numeral, or that names a position
    outside the list, yields the not-found result, which is the only
    error of the resolver. *)
Theorem lookUp_list_positional (pos : RelPos) (elts : list Node)
    (key : string) (rest : list string) :
  (forall i elt, elts !! i = Some elt -> key = Itoa i ->
     lookUp (ListLit pos elts) (key :: rest) = lookUp elt rest) /\
  (lookUp (ListLit pos elts) (key :: rest) = NotFound \/
   exists i elt, readDecimal key = Some i /\ elts !! i = Some elt /\
     lookUp (ListLit pos elts) (key :: rest) = lookUp elt rest) /\
  (readDecimal key = None -> lookUp (ListLit pos elts) (key :: rest) = NotFound) /\
  (forall i, readDecimal key = Some i -> length elts <= i ->
     lookUp (ListLit pos elts) (key :: rest) = NotFound).
Proof.
  cbn [lookUp]. set (next := fun n => lookUp n rest).
  split; [|split; [|split]].
  - intros i elt Hi Hkey. apply (rangeElts_hit next key elts 0 i elt Hi).
    exact Hkey.
  - destruct (rangeElts_cases next key elts 0) as [E|(j & elt & Hj & Hk & E)];
      [by left|].
    right. exists j, elt. cbn in Hk. subst key. by rewrite readDecimal_Itoa.
  - intros Hnone. apply rangeElts_miss. intros j _ E. cbn in E.
    subst key. by rewrite readDecimal_Itoa in Hnone.
  - intros i Hi Hlen. apply rangeElts_miss. intros j Hj E. cbn in E.
    subst key. rewrite readDecimal_Itoa in Hi. injection Hi as ->. lia.
Qed.

Lemma lookUp_list_positional_witness :
  lookUp (ListLit NoRelPos [BasicLit NoRelPos "a"; BasicLit NoRelPos "b"])
         ["1"] = (BasicLit NoRelPos "b", None) /\
  lookUp (ListLit NoRelPos [BasicLit NoRelPos "a"; BasicLit NoRelPos "b"])
         ["2"] = NotFound /\
  lookUp (ListLit NoRelPos [BasicLit NoRelPos "a"; BasicLit NoRelPos "b"])
         ["x"] = NotFound.
Proof.
  pose proof (lookUp_list_positional NoRelPos
                [BasicLit NoRelPos "a"; BasicLit NoRelPos "b"]) as T.
  split; [|split].
  - destruct (T "1" []) as (Hhit & _).
    exact (Hhit 1 (BasicLit NoRelPos "b") eq_refl eq_refl).
  - destruct (T "2" []) as (_ & _ & _ & Hout).
    apply (Hout 2); [reflexivity|cbn; lia].
  - destruct (T "x" []) as (_ & _ & Hnum & _).
    apply Hnum. reflexivity.
Defined.

(** The path [services.frontend.image] of a descriptor resolves to the
    image; one segment more, into the scalar, is not found. *)
Example lookUp_services_frontend_image :
  let image := BasicLit NoRelPos "busybox" in
  let descriptor :=
    File "vela.cue"
      [Field (Ident NoRelPos "name") (BasicLit NoRelPos "myapp");
       Field (Ident NoRelPos "services")
         (StructLit NoRelPos
            [Field (Ident NoRelPos "frontend")
               (StructLit NoRelPos [Field (Ident NoRelPos "image") image])])] in
  lookUp descriptor ["services"; "frontend"; "image"] = (image, None) /\
  lookUp descriptor ["services"; "frontend"; "image"; "tag"] = NotFound.
Proof. split; reflexivity. Qed.

Lemma lookUp_shape (paths : list string) :
  forall node : Node,
    lookUp node paths = NotFound \/ exists n, lookUp node paths = (n, None).
Proof.
  induction paths as [|key rest IH]; intros node.
  - right. by exists node.
  - destruct node; cbn [lookUp]; try (by left).
    + apply rangeDecls_shape; [by left|intros n; apply IH].
    + apply rangeDecls_shape; [by left|intros n; apply IH].
    + destruct (rangeElts_cases (fun n => lookUp n rest) key Elts 0)
        as [->|(j & elt & _ & _ & ->)]; [by left|apply IH].
Qed.

(** C6, the sentence as the specification has it, fails: a field whose
    value is nil does not end the walk when a later field of the same
    document has the same label. *)
Lemma nil_field_does_not_end_walk :
  ~ nilFieldEndsWalk
      [Field (Ident NoRelPos "a") NilNode;
       Field (Ident NoRelPos "a") (BasicLit NoRelPos "1")]
      "a" [].
Proof.
  intros Hclaim.
  assert (lookUp (File "" [Field (Ident NoRelPos "a") NilNode;
                           Field (Ident NoRelPos "a") (BasicLit NoRelPos "1")])
                 ["a"] = NotFound) as E.
  { apply Hclaim. exists (Ident NoRelPos "a"). split; [left|reflexivity]. }
  vm_compute in E. discriminate E.
Qed.

(** C6, amended.  Path resolution returns on every node and every path,
    with a node and no error or with the not-found result.  A node that
    is no file, list or struct literal, with a path that is not empty,
    is not found.  A field whose value is nil is passed over as if it
    were not declared: the walk is the walk on the other declarations,
    and it ends not found when no declaration has the label and a value
    that is not nil. *)
Theorem lookUp_total_nil_passed_over :
  (forall node paths,
     lookUp node paths = NotFound \/ exists n, lookUp node paths = (n, None)) /\
  (forall node key rest,
     isContainer node = false -> lookUp node (key :: rest) = NotFound) /\
  (forall fname pos pre label post key rest,
     lookUp (File fname (pre ++ Field label NilNode :: post)) (key :: rest)
       = lookUp (File fname (pre ++ post)) (key :: rest) /\
     lookUp (StructLit pos (pre ++ Field label NilNode :: post)) (key :: rest)
       = lookUp (StructLit pos (pre ++ post)) (key :: rest)) /\
  (forall fname pos decls key rest,
     (forall d, d ∈ decls -> lookField d key = NilNode) ->
     lookUp (File fname decls) (key :: rest) = NotFound /\
     lookUp (StructLit pos decls) (key :: rest) = NotFound).
Proof.
  split; [|split; [|split]].
  - intros node paths. apply lookUp_shape.
  - intros node key rest Hkind. destruct node; try discriminate Hkind;
      reflexivity.
  - intros fname pos pre label post key rest. cbn [lookUp].
    assert (lookField (Field label NilNode) key = NilNode) as Hnil.
    { cbn. by destruct (decide (labelStr label = key)). }
    split; by apply rangeDecls_skip.
  - intros fname pos decls key rest Hall. cbn [lookUp].
    split; by apply rangeDecls_miss.
Qed.

Lemma lookUp_total_nil_passed_over_witness :
  lookUp (BasicLit NoRelPos "busybox") ["image"] = NotFound /\
  lookUp (File "" [Field (Ident NoRelPos "a") NilNode]) ["a"] = NotFound.
Proof.
  destruct lookUp_total_nil_passed_over as (_ & Hkind & _ & Hmiss).
  split.
  - apply Hkind. reflexivity.
  - apply (Hmiss "" NoRelPos). intros d Hd.
    apply list_elem_of_singleton in Hd as ->. reflexivity.
Defined.

(** C10, the sentence as stated, fails: of two fields whose labels are
    not identifiers, the empty segment resolves to the first one only. *)
Lemma empty_segment_first_field_only :
  ~ emptySegmentReturnsField
      [Field (BasicLit NoRelPos "a-b") (BasicLit NoRelPos "1");
       Field (BasicLit NoRelPos "c-d") (BasicLit NoRelPos "2")]
      [].
Proof.
  intros Hclaim.
  pose proof (Hclaim (BasicLit NoRelPos "c-d") (BasicLit NoRelPos "2")) as E.
  assert (Field (BasicLit NoRelPos "c-d") (BasicLit NoRelPos "2")
            ∈ [Field (BasicLit NoRelPos "a-b") (BasicLit NoRelPos "1");
               Field (BasicLit NoRelPos "c-d") (BasicLit NoRelPos "2")]) as Hin.
  { right. left. }
  specialize (E Hin eq_refl). vm_compute in E. discriminate E.
Qed.

(** C10, amended.  A label that is not an identifier has the empty
    string for name, so [lookField] with the empty key returns the value
    of a field with such a label.  In a file or struct literal the empty
    first segment resolves to the value of the first such field whose
    value is not nil: the fields before it must not match the empty key
    with a value. *)
Theorem lookUp_empty_segment_first_field :
  (forall label, isIdent label = false -> labelStr label = "") /\
  (forall label value,
     isIdent label = false -> lookField (Field label value) "" = value) /\
  (forall fname pos pre label value post rest,
     isIdent label = false -> value <> NilNode ->
     (forall d, d ∈ pre -> lookField d "" = NilNode) ->
     lookUp (File fname (pre ++ Field label value :: post)) ("" :: rest)
       = lookUp value rest /\
     lookUp (StructLit pos (pre ++ Field label value :: post)) ("" :: rest)
       = lookUp value rest).
Proof.
  assert (forall label, isIdent label = false -> labelStr label = "") as Hlbl.
  { intros label Hl. destruct label; try reflexivity. discriminate Hl. }
  assert (forall label value,
            isIdent label = false -> lookField (Field label value) "" = value)
    as Hfield.
  { intros label value Hl. cbn. rewrite (Hlbl label Hl).
    by destruct (decide ("" = "")). }
  split; [exact Hlbl|split; [exact Hfield|]].
  intros fname pos pre label value post rest Hl Hv Hpre. cbn [lookUp].
  rewrite !rangeDecls_first; rewrite ?Hfield; auto.
Qed.

Lemma lookUp_empty_segment_first_field_witness :
  lookUp (File "" [Field (Ident NoRelPos "x") (BasicLit NoRelPos "0");
                   Field (BasicLit NoRelPos "a-b") (BasicLit NoRelPos "1");
                   Field (BasicLit NoRelPos "c-d") (BasicLit NoRelPos "2")])
         [""] = (BasicLit NoRelPos "1", None).
Proof.
  destruct lookUp_empty_segment_first_field as (_ & _ & Hfirst).
  refine (proj1 (Hfirst "" NoRelPos
                   [Field (Ident NoRelPos "x") (BasicLit NoRelPos "0")]
                   (BasicLit NoRelPos "a-b") (BasicLit NoRelPos "1")
                   [Field (BasicLit NoRelPos "c-d") (BasicLit NoRelPos "2")]
                   [] eq_refl _ _)).
  - discriminate.
  - intros d Hd. apply list_elem_of_singleton in Hd as ->. reflexivity.
Defined.

(** ** The printer *)

(** C8, the sentence as stated, fails at the nil node: it is no struct
    literal, no expression and no file, and its conversion returns nil
    and does not panic. *)
Lemma toFile_nil_no_panic : ~ unsupportedPanics NilNode.
Proof.
  intros Hclaim. destruct (Hclaim eq_refl eq_refl eq_refl) as [msg E].
  discriminate E.
Qed.

(** C8, amended.  The conversion of the nil node returns nil.  A struct
    literal becomes the file of its elements; any other expression
    becomes the file of one embedding of the expression, whose relative
    position is set to no space; a file is returned as it is.  So the
    conversion of a node that is not nil, when it returns, returns a
    file.  Every other node, that is, every node that is not nil, no
    struct literal, no expression and no file, makes the conversion
    panic with the message that names the type of the node. *)
Theorem toFile_cases (n : Node) :
  (n = NilNode -> toFile n = Return NilNode) /\
  (forall pos elts, n = StructLit pos elts -> toFile n = Return (File "" elts)) /\
  (isBareExpr n = true ->
     toFile n = Return (File "" [EmbedDecl (SetRelPos n NoSpace)]) /\
     relPos (SetRelPos n NoSpace) = Some NoSpace) /\
  (isFile n = true -> toFile n = Return n) /\
  (forall f, n <> NilNode -> toFile n = Return f -> isFile f = true) /\
  (n <> NilNode -> isStructLit n = false -> isBareExpr n = false ->
   isFile n = false ->
     toFile n = Panic ("Unsupported node type " +:+ typeName n)).
Proof.
  split; [|split; [|split; [|split; [|split]]]].
  - by intros ->.
  - by intros pos elts ->.
  - intros He. destruct n; try discriminate He; done.
  - intros Hf. destruct n; try discriminate Hf; done.
  - intros f Hn E. destruct n; try done; cbn in E; by injection E as <-.
  - intros Hn Hs He Hf. destruct n; try done.
Qed.

Lemma toFile_cases_witness :
  toFile (BasicLit Newline "1")
    = Return (File "" [EmbedDecl (BasicLit NoSpace "1")]) /\
  toFile (Field (Ident NoRelPos "a") (BasicLit NoRelPos "1"))
    = Panic "Unsupported node type *ast.Field".
Proof.
  split.
  - destruct (toFile_cases (BasicLit Newline "1")) as (_ & _ & He & _).
    exact (proj1 (He eq_refl)).
  - destruct (toFile_cases (Field (Ident NoRelPos "a") (BasicLit NoRelPos "1")))
      as (_ & _ & _ & _ & _ & Hp).
    apply Hp; [discriminate|reflexivity..].
Defined.

Lemma length_append (s t : string) :
  String.length (s +:+ t) = String.length s + String.length t.
Proof. induction s as [|a s IH]; simpl; [reflexivity|by f_equal]. Qed.



(** ** Rendering *)

Import Appfile.

Lemma collect_inr (results : list (list Object * ApplicationComponent + error))
    (err : error) :
  collect results = inr err -> inr err ∈ results.
Proof.
  induction results as [|[[objs comp]|e] results IH]; cbn; [done| |].
  - destruct (collect results) as [[objs' comps]|e']; [done|].
    intros [= ->]. right. by apply IH.
  - intros [= ->]. left.
Qed.

Lemma collect_inl (results : list (list Object * ApplicationComponent + error))
    (objs : list Object) (comps : list ApplicationComponent) :
  collect results = inl (objs, comps) -> forall err, inr err ∉ results.
Proof.
  revert objs comps.
  induction results as [|[[o c]|e] results IH]; cbn; intros objs comps E err.
  - apply not_elem_of_nil.
  - destruct (collect results) as [[objs' comps']|e'] eqn:Ec; [|done].
    intros [?|Hin]%elem_of_cons; [done|]. by apply (IH _ _ eq_refl err).
  - done.
Qed.

Lemma collect_fails (results : list (list Object * ApplicationComponent + error))
    (err : error) :
  inr err ∈ results -> exists err', collect results = inr err'.
Proof.
  intros Hin. destruct (collect results) as [[objs comps]|e] eqn:E; [|eauto].
  by apply collect_inl with (err := err) in E.
Qed.

Lemma collect_Permutation
    (rs rs' : list (list Object * ApplicationComponent + error)) :
  rs ≡ₚ rs' ->
  forall objs comps,
    collect rs = inl (objs, comps) ->
    exists objs' comps',
      collect rs' = inl (objs', comps') /\ objs ≡ₚ objs' /\ comps ≡ₚ comps'.
Proof.
  induction 1 as [|x rs rs' _ IH|x y rs|rs1 rs2 rs3 _ IH1 _ IH2];
    intros objs comps E.
  - injection E as <- <-. by exists [], [].
  - destruct x as [[o c]|e]; cbn in E |- *; [|done].
    destruct (collect rs) as [[objs1 comps1]|e] eqn:E1; [|done].
    injection E as <- <-.
    destruct (IH _ _ eq_refl) as (objs' & comps' & -> & Ho & Hc).
    exists (o ++ objs'), (c :: comps'). by rewrite Ho, Hc.
  - destruct x as [[o1 c1]|e1], y as [[o2 c2]|e2]; cbn in E |- *; try done;
      destruct (collect rs) as [[objs1 comps1]|e] eqn:E1; try done.
    injection E as <- <-. eexists _, _. split; [reflexivity|].
    split; [|apply perm_swap].
    rewrite !(assoc_L (++)). f_equiv. apply Permutation_app_comm.
  - destruct (IH1 _ _ E) as (objs2 & comps2 & E2 & Ho & Hc).
    destruct (IH2 _ _ E2) as (objs3 & comps3 & E3 & Ho' & Hc').
    exists objs3, comps3. split; [exact E3|]. split; by etrans.
Qed.

Lemma collect_config_maps
    (results : list (list Object * ApplicationComponent + error))
    (objs : list Object) (comps : list ApplicationComponent) :
  Forall (fun r => forall o c, r = inl (o, c) ->
                   exists cms, o = ObjConfigMap <$> cms) results ->
  collect results = inl (objs, comps) ->
  exists cms, objs = ObjConfigMap <$> cms.
Proof.
  intros Hall. revert objs comps.
  induction Hall as [|r results Hr _ IH]; cbn; intros objs comps E.
  - injection E as <- <-. by exists [].
  - destruct r as [[o c]|e]; [|done].
    destruct (collect results) as [[objs' comps']|e] eqn:Ec; [|done].
    injection E as <- <-. destruct (Hr o c eq_refl) as [cms1 ->].
    destruct (IH _ _ eq_refl) as [cms2 ->].
    exists (cms1 ++ cms2). by rewrite fmap_app.
Qed.

Section Rendering.
Context `{Externals}.
Variables (app : AppFile) (env : EnvMeta) (tm : Manager) (silence : bool).

Lemma renderService_result (st : build) (serviceName : string)
    (svc : Service) :
  match serviceResult app env tm serviceName svc with
  | inl (objs, comp) =>
      exists out,
        renderService app env tm silence st serviceName svc
          = ({| assistantObjects := assistantObjects st ++ objs;
                components := components st ++ [comp]; io_Out := out |}, None)
  | inr err =>
      exists st', renderService app env tm silence st serviceName svc
                    = (st', Some err)
  end.
Proof.
  unfold serviceResult, renderService.
  repeat case_match; simplify_eq; rewrite ?app_nil_r; eauto.
Qed.

Lemma rangeServices_collect (order : list (string * Service)) :
  forall st : build,
    match collect (resultsOf app env tm order) with
    | inl (objs, comps) =>
        exists out,
          rangeServices app env tm silence st order
            = ({| assistantObjects := assistantObjects st ++ objs;
                  components := components st ++ comps; io_Out := out |}, None)
    | inr err =>
        exists st', rangeServices app env tm silence st order = (st', Some err)
    end.
Proof.
  induction order as [|[serviceName svc] order IH]; intros st; cbn.
  - exists (io_Out st). rewrite !app_nil_r. by destruct st.
  - pose proof (renderService_result st serviceName svc) as Hone.
    destruct (serviceResult app env tm serviceName svc) as [[objs comp]|err].
    + destruct Hone as [out ->].
      specialize (IH {| assistantObjects := assistantObjects st ++ objs;
                        components := components st ++ [comp];
                        io_Out := out |}).
      fold (resultsOf app env tm order).
      destruct (collect (resultsOf app env tm order)) as [[objs' comps]|err].
      * destruct IH as [out' ->]. exists out'. cbn.
        by rewrite <- !(assoc_L (++)).
      * exact IH.
    + destruct Hone as [st' ->]. by exists st'.
Qed.

Lemma BuildOAMApplication_collect (order : list (string * Service)) :
  snd (BuildOAMApplication order app env tm silence) =
  match collect (resultsOf app env tm order) with
  | inl (objs, comps) =>
      (Some (fst (addDefaultHealthScopeToApplication (rendered app env comps))),
       objs ++ [ObjHealthScope
                  (snd (addDefaultHealthScopeToApplication (rendered app env comps)))],
       None)
  | inr err => (None, [], Some err)
  end.
Proof.
  unfold BuildOAMApplication.
  pose proof (rangeServices_collect order
                {| assistantObjects := []; components := []; io_Out := [] |})
    as Hloop.
  destruct (collect (resultsOf app env tm order)) as [[objs comps]|err].
  - destruct Hloop as [out ->]. reflexivity.
  - destruct Hloop as [st' ->]. reflexivity.
Qed.

Lemma serviceResult_fails (serviceName : string) (svc : Service)
    (err : error) :
  serviceResult app env tm serviceName svc = inr err ->
  serviceFails app env tm serviceName svc err.
Proof.
  unfold serviceResult. intros E.
  repeat case_match; simplify_eq;
    eauto using fetchFails, decodeFails, configMapFails, renderFails.
Qed.

Lemma serviceFails_result (serviceName : string) (svc : Service)
    (err : error) :
  serviceFails app env tm serviceName svc err ->
  exists err', serviceResult app env tm serviceName svc = inr err'.
Proof.
  unfold serviceResult.
  destruct 1 as [d e Hn Hf|d dd e Hn Hf Hd|d dd cm e Hn Hf Hd Hc|c e Hr];
    repeat case_match; simplify_eq; eauto; first [done|congruence].
Qed.

Lemma serviceResult_config_maps (serviceName : string) (svc : Service)
    (objs : list Object) (comp : ApplicationComponent) :
  serviceResult app env tm serviceName svc = inl (objs, comp) ->
  exists cms, objs = ObjConfigMap <$> cms.
Proof.
  unfold serviceResult. intros E. repeat case_match; simplify_eq.
  - by eexists [_].
  - by exists [].
Qed.

End Rendering.

(** C1, the sentence as stated, fails: the health scope of the two
    services of the test refers to no component. *)
Lemma health_scope_has_no_reference :
  ~ @healthReferencesComponents Samples.sampleExternals
      [("frontend", Samples.frontend); ("backend", Samples.backend)]
      Samples.yamlNormal Samples.sampleEnv ∅ true.
Proof.
  unfold healthReferencesComponents. intros Hclaim.
  remember (snd (BuildOAMApplication _ _ _ _ _)) as r eqn:E in Hclaim.
  vm_compute in E. subst r.
  destruct (Hclaim _ _ eq_refl) as (health & Hin & _ & Hrefs).
  apply list_elem_of_singleton in Hin. injection Hin as ->.
  destruct (Hrefs _ ltac:(left)) as (r & Hr & _).
  by apply elem_of_nil in Hr.
Qed.

(** C1, amended.  A call of [BuildOAMApplication] that returns an
    application returns, after the config maps of the services, exactly
    one health scope; its name is the name of the application followed
    by [-default-health], its namespace that of the environment, and its
    list of workload references is empty.  The reference goes the other
    way: every component of the application names the health scope in
    its scopes. *)
Theorem health_scope_of_application `{Externals}
    (order : list (string * Service)) (app : AppFile) (env : EnvMeta)
    (tm : Manager) (silence : bool) (servApp : Application)
    (objs : list Object) :
  snd (BuildOAMApplication order app env tm silence)
    = (Some servApp, objs, None) ->
  healthScopeLinked app env servApp objs.
Proof.
  rewrite BuildOAMApplication_collect.
  destruct (collect (resultsOf app env tm order)) as [[objs' comps]|err] eqn:E;
    [|done].
  intros [= <- <-].
  assert (Forall (fun r => forall o c, r = inl (o, c) ->
                          exists cms, o = ObjConfigMap <$> cms)
                 (resultsOf app env tm order)) as Hall.
  { apply Forall_fmap, Forall_forall. intros [n s] _ o c.
    apply serviceResult_config_maps. }
  destruct (collect_config_maps _ _ _ Hall E) as [cms ->].
  exists cms, (snd (addDefaultHealthScopeToApplication (rendered app env comps))).
  repeat split. cbn. apply Forall_fmap, Forall_forall. by intros c _.
Qed.

Lemma health_scope_of_application_witness :
  exists servApp objs,
    snd (@BuildOAMApplication Samples.sampleExternals
           [("worker", Samples.configured); ("frontend", Samples.frontend)]
           Samples.yamlConfigured Samples.sampleEnv ∅ false)
      = (Some servApp, objs, None) /\
    @healthScopeLinked Samples.sampleExternals Samples.yamlConfigured
      Samples.sampleEnv servApp objs.
Proof.
  eexists _, _. split; [reflexivity|].
  apply (@health_scope_of_application Samples.sampleExternals
           [("worker", Samples.configured); ("frontend", Samples.frontend)]
           Samples.yamlConfigured Samples.sampleEnv ∅ false).
  reflexivity.
Defined.

(** C3, the sentence as stated, fails: the two orders in which a range
    can visit the two services of the test give the components in two
    orders. *)
Lemma render_depends_on_range_order :
  ~ @renderDeterministic Samples.sampleExternals
      Samples.yamlNormal Samples.sampleEnv ∅ true.
Proof.
  intros Hclaim.
  specialize (Hclaim
    [("frontend", Samples.frontend); ("backend", Samples.backend)]
    [("backend", Samples.backend); ("frontend", Samples.frontend)]).
  assert (map_to_list (Services Samples.yamlNormal)
            = [("frontend", Samples.frontend); ("backend", Samples.backend)])
    as Hlist by (vm_compute; reflexivity).
  unfold rangeOrder in Hclaim. cbn [GetServices Samples.sampleExternals] in Hclaim.
  rewrite Hlist in Hclaim.
  specialize (Hclaim ltac:(reflexivity) ltac:(apply perm_swap)).
  vm_compute in Hclaim. discriminate Hclaim.
Qed.

(** C3, amended.  For a given order of the range over the services the
    result of rendering is a function of the inputs.  The order is not
    fixed: two calls on the same inputs both fail, or both return an
    application, and then the two applications have the same name,
    namespace and type and the same components, the same config maps
    and the same health scope, the components and the config maps in
    the order in which each call visited the services. *)
Theorem render_up_to_range_order `{Externals} (app : AppFile) (env : EnvMeta)
    (tm : Manager) (silence : bool) (order1 order2 : list (string * Service)) :
  rangeOrder (GetServices app) order1 ->
  rangeOrder (GetServices app) order2 ->
  (order1 = order2 ->
   BuildOAMApplication order1 app env tm silence
     = BuildOAMApplication order2 app env tm silence) /\
  agreeUpToOrder (snd (BuildOAMApplication order1 app env tm silence))
                 (snd (BuildOAMApplication order2 app env tm silence)).
Proof.
  unfold rangeOrder. intros H1 H2. split; [by intros ->|].
  assert (resultsOf app env tm order1 ≡ₚ resultsOf app env tm order2) as Hperm.
  { unfold resultsOf. apply fmap_Permutation. by rewrite H1, H2. }
  rewrite !BuildOAMApplication_collect.
  destruct (collect (resultsOf app env tm order1)) as [[objs1 comps1]|e1] eqn:E1.
  - destruct (collect_Permutation _ _ Hperm _ _ E1)
      as (objs2 & comps2 & -> & Ho & Hc).
    left. eexists _, _, objs1, objs2, _. split; [reflexivity|].
    split; [reflexivity|]. cbn. repeat split; [|exact Ho].
    by apply fmap_Permutation.
  - destruct (collect (resultsOf app env tm order2)) as [[objs2 comps2]|e2] eqn:E2.
    + symmetry in Hperm.
      destruct (collect_Permutation _ _ Hperm _ _ E2) as (? & ? & ? & _).
      congruence.
    + right. by exists e1, e2.
Qed.

Lemma render_up_to_range_order_witness :
  agreeUpToOrder
    (snd (@BuildOAMApplication Samples.sampleExternals
            [("frontend", Samples.frontend); ("backend", Samples.backend)]
            Samples.yamlNormal Samples.sampleEnv ∅ true))
    (snd (@BuildOAMApplication Samples.sampleExternals
            [("backend", Samples.backend); ("frontend", Samples.frontend)]
            Samples.yamlNormal Samples.sampleEnv ∅ true)).
Proof.
  assert (map_to_list (Services Samples.yamlNormal)
            = [("frontend", Samples.frontend); ("backend", Samples.backend)])
    as Hlist by (vm_compute; reflexivity).
  refine (proj2 (@render_up_to_range_order Samples.sampleExternals
                   Samples.yamlNormal Samples.sampleEnv ∅ true _ _ _ _)).
  - unfold rangeOrder. cbn [GetServices Samples.sampleExternals].
    rewrite Hlist. reflexivity.
  - unfold rangeOrder. cbn [GetServices Samples.sampleExternals].
    rewrite Hlist. apply perm_swap.
Defined.

(** C4.  Rendering is all or nothing: when the rendering of one of the
    services fails, in the fetch of its configuration, in the decoding
    of the configuration, in the making of its config map or in the
    rendering of its component, the call returns an error, the error of
    a failing service, with no application and no assistant object. *)
Theorem render_all_or_nothing `{Externals} (order : list (string * Service))
    (app : AppFile) (env : EnvMeta) (tm : Manager) (silence : bool)
    (serviceName : string) (svc : Service) (err : error) :
  (serviceName, svc) ∈ order ->
  serviceFails app env tm serviceName svc err ->
  exists err',
    snd (BuildOAMApplication order app env tm silence) = (None, [], Some err') /\
    exists serviceName' svc',
      (serviceName', svc') ∈ order /\
      serviceFails app env tm serviceName' svc' err'.
Proof.
  intros Hin Hfail. rewrite BuildOAMApplication_collect.
  destruct (serviceFails_result app env tm _ _ _ Hfail) as [e He].
  assert (inr e ∈ resultsOf app env tm order) as Hres.
  { unfold resultsOf. apply list_elem_of_fmap.
    exists (serviceName, svc). cbn. by rewrite He. }
  destruct (collect_fails _ _ Hres) as [err' E]. rewrite E.
  exists err'. split; [reflexivity|].
  apply collect_inr in E. unfold resultsOf in E.
  apply list_elem_of_fmap in E as ([n s] & Hn & Hns).
  exists n, s. split; [exact Hns|]. by apply serviceResult_fails.
Qed.

Lemma render_all_or_nothing_witness :
  exists err',
    snd (@BuildOAMApplication Samples.sampleExternals
           [("frontend", Samples.frontend); ("broken", Samples.broken)]
           Samples.yamlBroken Samples.sampleEnv ∅ true)
      = (None, [], Some err') /\
    exists serviceName' svc',
      (serviceName', svc')
        ∈ [("frontend", Samples.frontend); ("broken", Samples.broken)] /\
      @serviceFails Samples.sampleExternals Samples.yamlBroken
        Samples.sampleEnv ∅ serviceName' svc' err'.
Proof.
  apply (@render_all_or_nothing Samples.sampleExternals _ _ _ _ _
           "broken" Samples.broken (errorString "image not defined")).
  - right. left.
  - eapply (@renderFails Samples.sampleExternals). reflexivity.
Defined.

(** ** Loading *)

(** C9.  A file that is read is taken for YAML when its extension is
    [.yaml] or [.yml] and for JSON, converted to YAML first, when its
    extension is [.json], whatever its content; with any other
    extension it is taken for JSON when its content is valid JSON and
    for YAML otherwise. *)
Theorem LoadFromFile_format `{Externals} (filename b : string) :
  ioutil_ReadFile (filepath_Clean filename) = (b, None) ->
  LoadFromFile filename = formatByExtension filename b /\
  (Ext filename = ".yaml" \/ Ext filename = ".yml" ->
   LoadFromFile filename = parseAsYAML b) /\
  (Ext filename = ".json" -> LoadFromFile filename = parseAsJSON b) /\
  (Ext filename <> ".yaml" -> Ext filename <> ".yml" ->
   Ext filename <> ".json" ->
   LoadFromFile filename
     = if json_Valid b then parseAsJSON b else parseAsYAML b).
Proof.
  intros Hread.
  assert (LoadFromFile filename = formatByExtension filename b) as Hfmt.
  { unfold LoadFromFile, formatByExtension, parseAsJSON, parseAsYAML,
      JSONToYaml, unmarshalInto.
    rewrite Hread. repeat case_match; simplify_eq; reflexivity. }
  split; [exact Hfmt|]. rewrite Hfmt. unfold formatByExtension.
  split; [|split].
  - intros Hext. by rewrite decide_True.
  - intros Hext. rewrite decide_False, decide_True; [done..|].
    rewrite Hext. by intros [?|?].
  - intros Hy Hm Hj. rewrite decide_False, decide_False; [done..|].
    by intros [?|?].
Qed.

Lemma LoadFromFile_format_witness :
  @LoadFromFile Samples.sampleExternals "Appfile"
    = @parseAsJSON Samples.sampleExternals "{}" /\
  @LoadFromFile Samples.sampleExternals "vela.yaml"
    = @parseAsYAML Samples.sampleExternals "myapp".
Proof.
  split.
  - destruct (@LoadFromFile_format Samples.sampleExternals "Appfile" "{}"
                eq_refl) as (_ & _ & _ & Hother).
    apply Hother; discriminate.
  - destruct (@LoadFromFile_format Samples.sampleExternals "vela.yaml" "myapp"
                eq_refl) as (_ & Hyaml & _).
    apply Hyaml. by left.
Defined.

(** ** Validation *)

Lemma validateFields_None (tm : Manager) (serviceName : string)
    (fields : Service) :
  Application.validateFields tm serviceName fields = None <->
  forall traitName traitData,
    (traitName, traitData) ∈ fields ->
    Application.IsTrait tm traitName = true ->
    Application.isMapping traitData = true.
Proof.
  induction fields as [|[t d] fields IH]; cbn.
  - split; [|done]. by intros _ ? ? ?%elem_of_nil.
  - destruct (Application.IsTrait tm t) eqn:Ht,
      (Application.isMapping d) eqn:Hd; cbn; rewrite ?IH.
    + split.
      * intros Hall t' d' [[= -> ->]|Hin]%elem_of_cons; [done|by apply Hall].
      * intros Hall t' d' Hin. apply Hall. by right.
    + split; [done|]. intros Hall.
      specialize (Hall t d ltac:(left) Ht). congruence.
    + split.
      * intros Hall t' d' [[= -> ->]|Hin]%elem_of_cons; [done|by apply Hall].
      * intros Hall t' d' Hin. apply Hall. by right.
    + split.
      * intros Hall t' d' [[= -> ->]|Hin]%elem_of_cons; [congruence|].
        by apply Hall.
      * intros Hall t' d' Hin. apply Hall. by right.
Qed.

Lemma validateFields_Some (tm : Manager) (serviceName : string)
    (fields : Service) (err : error) :
  Application.validateFields tm serviceName fields = Some err ->
  exists traitName traitData,
    (traitName, traitData) ∈ fields /\
    Application.IsTrait tm traitName = true /\
    Application.isMapping traitData = false /\
    err = traitMustBeMap traitName serviceName.
Proof.
  induction fields as [|[t d] fields IH]; cbn; [done|].
  destruct (Application.IsTrait tm t) eqn:Ht,
    (Application.isMapping d) eqn:Hd; cbn.
  2: { intros [= <-]. exists t, d. repeat split; [left|done..]. }
  all: intros (t' & d' & Hin & ?)%IH; exists t', d'; split; [by right|done].
Qed.

Lemma validateServices_None (tm : Manager) (order : list (string * Service)) :
  Application.validateServices tm order = None <->
  forall serviceName svc,
    (serviceName, svc) ∈ order ->
    Application.validateFields tm serviceName svc = None.
Proof.
  induction order as [|[n s] order IH]; cbn.
  - split; [|done]. by intros _ ? ? ?%elem_of_nil.
  - destruct (Application.validateFields tm n s) eqn:E.
    + split; [done|]. intros Hall. specialize (Hall n s ltac:(left)).
      congruence.
    + rewrite IH. split.
      * intros Hall n' s' [[= -> ->]|Hin]%elem_of_cons; [done|by apply Hall].
      * intros Hall n' s' Hin. apply Hall. by right.
Qed.

Lemma validateServices_Some (tm : Manager) (order : list (string * Service))
    (err : error) :
  Application.validateServices tm order = Some err ->
  exists serviceName svc,
    (serviceName, svc) ∈ order /\
    Application.validateFields tm serviceName svc = Some err.
Proof.
  induction order as [|[n s] order IH]; cbn; [done|].
  destruct (Application.validateFields tm n s) eqn:E.
  - intros [= <-]. exists n, s. split; [left|done].
  - intros (n' & s' & Hin & ?)%IH. exists n', s'. split; [by right|done].
Qed.

Lemma rangeOrder_lookup (m : gmap string Service)
    (order : list (string * Service)) (serviceName : string) (svc : Service) :
  rangeOrder m order ->
  (serviceName, svc) ∈ order <-> m !! serviceName = Some svc.
Proof.
  unfold rangeOrder. intros ->. apply elem_of_map_to_list.
Qed.

(** C2.  [Validate] returns no error exactly when the name is not
    empty, there is at least one service and every field of a service
    that is named like a known trait has a mapping for value.  An empty
    name is reported as [name is required]; with a name, no service is
    reported as [at least one service is required]; with a name and a
    service, the error names a trait field of a service whose value is
    no mapping: [trait <traitName> in '<serviceName>' must be map]. *)
Theorem Validate_rules (order : list (string * Service))
    (app : Application.Application) :
  rangeOrder (Services (Application.AppFile app)) order ->
  validatorRules order app.
Proof.
  intros Horder. unfold validatorRules, Application.Validate.
  destruct (decide (Name (Application.AppFile app) = "")) as [Hname|Hname].
  { repeat split; try done. by intros (? & _). }
  destruct (decide (size (Services (Application.AppFile app)) = 0))
    as [Hsize|Hsize].
  { repeat split; try done; [intros (_ & ? & _)|intros err _ ?]; lia. }
  split; [|split; [done|split; [lia|]]].
  - rewrite validateServices_None. split.
    + intros Hall. split; [done|]. split; [lia|].
      intros n svc t d Hsvc Hin. apply (rangeOrder_lookup _ order) in Hsvc;
        [|done].
      by apply (proj1 (validateFields_None _ _ _) (Hall n svc Hsvc)).
    + intros (_ & _ & Hall) n svc Hin. apply validateFields_None.
      intros t d Htd. apply (Hall n svc); [|done].
      by apply (rangeOrder_lookup _ order).
  - intros err _ _ (n & svc & Hin & Hfields)%validateServices_Some.
    apply validateFields_Some in Hfields as (t & d & ? & ? & ? & ->).
    exists n, svc, t, d. split; [|done].
    by apply (rangeOrder_lookup _ order).
Qed.

Lemma Validate_rules_witness :
  validatorRules (map_to_list (Services Samples.yamlTraitNotMap))
    {| Application.AppFile := Samples.yamlTraitNotMap;
       Application.tm := Samples.traitManager ["autoscaling"] |}.
Proof.
  apply Validate_rules. unfold rangeOrder. reflexivity.
Defined.

(** The cases of [TestApplication]. *)
Example TestApplication_cases :
  Application.Validate (map_to_list (Services Samples.yamlNormal))
    {| Application.AppFile := Samples.yamlNormal;
       Application.tm := Samples.traitManager ["autoscaling"; "rollout"] |}
    = None /\
  Application.Validate (map_to_list (Services Samples.yamlNoService))
    {| Application.AppFile := Samples.yamlNoService;
       Application.tm := Samples.traitManager [] |}
    = Some (errorString "at least one service is required") /\
  Application.Validate (map_to_list (Services Samples.yamlNoName))
    {| Application.AppFile := Samples.yamlNoName;
       Application.tm := Samples.traitManager [] |}
    = Some (errorString "name is required") /\
  Application.Validate (map_to_list (Services Samples.yamlTraitNotMap))
    {| Application.AppFile := Samples.yamlTraitNotMap;
       Application.tm := Samples.traitManager ["autoscaling"] |}
    = Some (errorString "trait autoscaling in 'frontend' must be map").
Proof. repeat split; vm_compute; reflexivity. Qed.

(** * Further properties *)

Import Vocabulary.

(** ** The path resolver, continued *)

Section ResolverLoops.
Variables (next next' : Node -> Node * option error).
Variable F : Node * option error -> Node * option error.
Hypothesis F_NotFound : F NotFound = NotFound.
Hypothesis F_next : forall n, next' n = F (next n).

Lemma rangeDecls_bind (key : string) (decls : list Node) :
  rangeDecls next' key decls = F (rangeDecls next key decls).
Proof.
  induction decls as [|d decls IH]; cbn; [symmetry; apply F_NotFound|].
  destruct (isNil (lookField d key)); [exact IH|apply F_next].
Qed.

Lemma rangeElts_bind (key : string) (elts : list Node) (index : nat) :
  rangeElts next' key index elts = F (rangeElts next key index elts).
Proof.
  revert index. induction elts as [|e elts IH]; intros index; cbn;
    [symmetry; apply F_NotFound|].
  destruct (decide (Itoa index = key)); [apply F_next|apply IH].
Qed.

End ResolverLoops.

(** X1.  A walk along a path in two parts is the walk along the second
    part from the node that the first part reaches, and is not found
    when the first part is not found. *)
Theorem lookUp_app (p q : list string) :
  forall node : Node, lookUp node (p ++ q) = andThen (lookUp node p) q.
Proof.
  induction p as [|key rest IH]; intros node; [reflexivity|].
  destruct node; try reflexivity; cbn [lookUp app].
  - apply (rangeDecls_bind _ _ (fun r => andThen r q)); [reflexivity|apply IH].
  - apply (rangeDecls_bind _ _ (fun r => andThen r q)); [reflexivity|apply IH].
  - apply (rangeElts_bind _ _ (fun r => andThen r q)); [reflexivity|apply IH].
Qed.

Lemma rangeDecls_found (next : Node -> Node * option error) (key : string)
    (decls : list Node) :
  rangeDecls next key decls = NotFound /\
  (forall d, d ∈ decls -> lookField d key = NilNode) \/
  exists pre label value post,
    decls = pre ++ Field label value :: post /\
    labelStr label = key /\ value <> NilNode /\
    (forall d, d ∈ pre -> lookField d key = NilNode) /\
    rangeDecls next key decls = next value.
Proof.
  induction decls as [|d decls IH]; cbn.
  - left. split; [done|]. by intros d ?%elem_of_nil.
  - destruct (isNil (lookField d key)) eqn:Hd.
    + assert (lookField d key = NilNode) as Hnil
        by (by destruct (lookField d key)).
      destruct IH as [[E Hall]|(pre & label & value & post & -> & Hl & Hv & Hpre & E)].
      * left. split; [exact E|].
        intros d' [->|Hin]%elem_of_cons; [exact Hnil|by apply Hall].
      * right. exists (d :: pre), label, value, post.
        repeat split; try done.
        intros d' [->|Hin]%elem_of_cons; [exact Hnil|by apply Hpre].
    + right. destruct d; try discriminate Hd. cbn in Hd |- *.
      destruct (decide (labelStr d1 = key)) as [Hl|]; [|discriminate Hd].
      exists [], d1, d2, decls. repeat split; try done.
      * by intros ->.
      * by intros d' ?%elem_of_nil.
Qed.

(** X2.  A walk that succeeds through a file or a struct literal went
    through a declared field: the first declaration that is a field
    with the segment for label and with a value that is not nil; the
    result is the result of the rest of the walk on that value. *)
Theorem lookUp_field_sound (node : Node) (decls : list Node) (key : string)
    (rest : list string) (n : Node) :
  (exists fname, node = File fname decls) \/
  (exists pos, node = StructLit pos decls) ->
  lookUp node (key :: rest) = (n, None) ->
  exists pre label value post,
    decls = pre ++ Field label value :: post /\
    labelStr label = key /\ value <> NilNode /\
    (forall d, d ∈ pre -> lookField d key = NilNode) /\
    lookUp value rest = (n, None).
Proof.
  intros Hnode E.
  assert (rangeDecls (fun n => lookUp n rest) key decls = (n, None)) as E'.
  { by destruct Hnode as [[fname ->]|[pos ->]]. }
  destruct (rangeDecls_found (fun n => lookUp n rest) key decls)
    as [[Hnf _]|(pre & label & value & post & Hd & Hl & Hv & Hpre & Hr)].
  - rewrite Hnf in E'. discriminate E'.
  - exists pre, label, value, post. rewrite Hr in E'. done.
Qed.

Lemma lookUp_field_sound_witness :
  exists pre label value post,
    [Field (Ident NoRelPos "image") NilNode;
     Field (Ident NoRelPos "image") (BasicLit NoRelPos "busybox")]
      = pre ++ Field label value :: post /\
    labelStr label = "image" /\ value <> NilNode /\
    (forall d, d ∈ pre -> lookField d "image" = NilNode) /\
    lookUp value [] = (BasicLit NoRelPos "busybox", None).
Proof.
  apply (lookUp_field_sound
           (File "" [Field (Ident NoRelPos "image") NilNode;
                     Field (Ident NoRelPos "image") (BasicLit NoRelPos "busybox")])).
  - left. by exists "".
  - reflexivity.
Defined.

Lemma rangeDecls_filter (next : Node -> Node * option error) (key : string)
    (P : Node -> Prop) `{forall d, Decision (P d)} (decls : list Node) :
  (forall d, ~ P d -> lookField d key = NilNode) ->
  rangeDecls next key (filter P decls) = rangeDecls next key decls.
Proof.
  intros Hskip. induction decls as [|d decls IH]; [reflexivity|].
  rewrite filter_cons. destruct (decide (P d)) as [Hd|Hd]; cbn.
  - by rewrite IH.
  - by rewrite IH, (Hskip d Hd).
Qed.

(** X3.  The resolver looks at the fields of a file or struct literal
    and at nothing else: the declarations that are no fields, such as
    embeddings and comments, can be taken away without any change to a
    walk, and so can the fields whose label is not the segment of the
    walk, in a file and in a struct literal alike. *)
Theorem lookUp_fields_only (decls : list Node) (key : string)
    (rest : list string) :
  (forall fname,
     lookUp (File fname (filter (fun d => isField d = true) decls)) (key :: rest)
       = lookUp (File fname decls) (key :: rest)) /\
  (forall pos,
     lookUp (StructLit pos (filter (fun d => isField d = true) decls))
            (key :: rest)
       = lookUp (StructLit pos decls) (key :: rest)) /\
  (forall fname,
     lookUp (File fname
               (filter (fun d => hasLabel key d = true) decls))
            (key :: rest)
       = lookUp (File fname decls) (key :: rest)) /\
  (forall pos,
     lookUp (StructLit pos
               (filter (fun d => hasLabel key d = true) decls))
            (key :: rest)
       = lookUp (StructLit pos decls) (key :: rest)).
Proof.
  assert (forall d, ~ (isField d = true) -> lookField d key = NilNode) as Hnf.
  { intros d Hd. destruct d; try reflexivity. by destruct Hd. }
  assert (forall d, ~ (hasLabel key d = true) -> lookField d key = NilNode)
    as Hnl.
  { intros d Hd. destruct d; try reflexivity. cbn in Hd |- *.
    destruct (decide (labelStr d1 = key)) as [Hl|]; [|reflexivity].
    destruct Hd. by apply bool_decide_eq_true. }
  split; [|split; [|split]]; intros; cbn [lookUp];
    by apply rangeDecls_filter.
Qed.

(** ** The printer, continued *)

(** X4.  [print] panics exactly when the conversion of the syntax of the
    evaluated value panics, with the same message.  When it returns, it
    has written nothing to the standard output, and with an error the
    string it returns is empty. *)
Theorem print_outcomes `{Cue} (out : string) (v : Value) :
  (forall msg,
     print out v = Panic msg <-> toFile (Syntax (Eval v)) = Panic msg) /\
  (forall out' s err,
     print out v = Return (out', (s, err)) ->
     out' = out /\ (is_Some err -> s = "")).
Proof.
  unfold print, format. cbn.
  destruct (toFile (Syntax (Eval v))) as [f|m].
  - destruct (format_Node f) as [b [e|]]; cbn.
    + split; [done|]. intros out' s err [= <- <- <-]. done.
    + split; [done|]. intros out' s err [= <- <- <-].
      split; [done|]. by intros [? ?].
  - split; [|done]. intros msg. split; by intros [= ->].
Qed.

(** X5.  The conversion to a file is idempotent: the file that [toFile]
    returns is converted to itself. *)
Theorem toFile_idempotent (n f : Node) :
  toFile n = Return f -> toFile f = Return f.
Proof. destruct n; cbn; intros [= <-]; reflexivity. Qed.

Lemma toFile_idempotent_witness :
  toFile (File "" [EmbedDecl (ListLit NoSpace [])])
    = Return (File "" [EmbedDecl (ListLit NoSpace [])]).
Proof.
  apply (toFile_idempotent (ListLit Newline [])). reflexivity.
Defined.

(** ** Loading, continued *)

Import Appfile.

Lemma JSONToYaml_shape `{Externals} (data : string) (appFile : AppFile) :
  (exists af, JSONToYaml data appFile = (Some af, None)) \/
  (exists err, JSONToYaml data appFile = (None, Some err)).
Proof. unfold JSONToYaml. repeat case_match; eauto. Qed.

(** X6.  [LoadFromFile] returns an Appfile or an error and never both
    or neither: the Appfile is nil exactly when the error is not. *)
Theorem LoadFromFile_app_or_error `{Externals} (filename : string) :
  (exists af, LoadFromFile filename = (Some af, None)) \/
  (exists err, LoadFromFile filename = (None, Some err)).
Proof.
  unfold LoadFromFile.
  destruct (ioutil_ReadFile (filepath_Clean filename)) as [b [err|]]; [eauto|].
  assert (forall a, (exists af, (let (af, err) := unmarshalInto b a in
                                 match err with
                                 | Some err => (None, Some err)
                                 | None => (af, None)
                                 end) = (Some af, None)) \/
                    (exists err, (let (af, err) := unmarshalInto b a in
                                  match err with
                                  | Some err => (None, Some err)
                                  | None => (af, None)
                                  end) = (None, Some err))) as Hyaml.
  { intros a. unfold unmarshalInto.
    destruct (yaml_Unmarshal b a) as [af [err|]]; eauto. }
  assert (forall a, (exists af, (let (af, err) := JSONToYaml b a in
                                 match err with
                                 | Some err => (None, Some err)
                                 | None => (af, None)
                                 end) = (Some af, None)) \/
                    (exists err, (let (af, err) := JSONToYaml b a in
                                  match err with
                                  | Some err => (None, Some err)
                                  | None => (af, None)
                                  end) = (None, Some err))) as Hjson.
  { intros a. destruct (JSONToYaml_shape b a) as [[af ->]|[err ->]]; eauto. }
  fold (unmarshalInto b NewAppFile). repeat case_decide; try destruct (json_Valid b);
    auto.
Qed.

Lemma LoadFromFile_formatByExtension `{Externals} (filename b : string) :
  ioutil_ReadFile (filepath_Clean filename) = (b, None) ->
  LoadFromFile filename = formatByExtension filename b.
Proof.
  intros Hread.
  unfold LoadFromFile, formatByExtension, parseAsJSON, parseAsYAML,
    JSONToYaml, unmarshalInto.
  rewrite Hread. repeat case_match; simplify_eq; reflexivity.
Qed.

(** ** Rendering, continued *)

Lemma append_cancel_r (s1 s2 t : string) : s1 +:+ t = s2 +:+ t -> s1 = s2.
Proof.
  revert s2. induction s1 as [|a s1 IH]; intros [|b s2] E; [done| | |].
  - apply (f_equal String.length) in E. rewrite !length_append in E.
    simpl in E. lia.
  - apply (f_equal String.length) in E. rewrite !length_append in E.
    simpl in E. lia.
  - simpl in E. injection E as -> E. f_equal. by apply IH.
Qed.

(** X7.  The name of the default health scope determines the
    application: two applications of different names have health
    scopes of different names. *)
Theorem FormatDefaultHealthScopeName_inj (appName1 appName2 : string) :
  FormatDefaultHealthScopeName appName1 = FormatDefaultHealthScopeName appName2 ->
  appName1 = appName2.
Proof. apply append_cancel_r. Qed.

Lemma FormatDefaultHealthScopeName_inj_witness : "myapp" = "myapp".
Proof. apply FormatDefaultHealthScopeName_inj. reflexivity. Defined.

(** X8.  [addDefaultHealthScopeToApplication] changes the scopes of the
    components and nothing else of the application, keeps the
    components in their order, and is idempotent: on the application it
    leaves, it leaves the same application and returns the same health
    scope. *)
Theorem addDefaultHealthScope_idempotent `{Externals} (app : Application) :
  let r := addDefaultHealthScopeToApplication app in
  addDefaultHealthScopeToApplication (fst r) = r /\
  app_TypeMeta (fst r) = app_TypeMeta app /\
  app_Name (fst r) = app_Name app /\
  app_Namespace (fst r) = app_Namespace app /\
  withoutScopes <$> Components (fst r) = withoutScopes <$> Components app.
Proof.
  cbn. repeat split.
  - unfold addDefaultHealthScopeToApplication. cbn. f_equal. f_equal.
    rewrite map_map. by apply map_ext.
  - rewrite <- list_fmap_compose. by apply list_fmap_ext.
Qed.

Section RenderingLog.
Context `{Externals}.
Variables (app : AppFile) (env : EnvMeta) (tm : Manager) (silence : bool).

Lemma renderService_out (st : build) (serviceName : string) (svc : Service) :
  io_Out (fst (renderService app env tm silence st serviceName svc))
    = io_Out st ++ (if silence then [] else [renderingMessage serviceName]) /\
  (snd (renderService app env tm silence st serviceName svc) = None <->
   exists r, serviceResult app env tm serviceName svc = inl r).
Proof.
  unfold renderService, serviceResult.
  repeat case_match; simplify_eq; cbn; rewrite ?app_nil_r;
    (split; [done|split; [|intros [? ?]]; by eauto]).
Qed.

Lemma rangeServices_out (order : list (string * Service)) :
  forall st : build,
    io_Out (fst (rangeServices app env tm silence st order))
      = io_Out st ++
        (if silence then [] else renderingMessage <$> visited app env tm order).
Proof.
  induction order as [|[serviceName svc] order IH]; intros st; cbn.
  - by destruct silence; rewrite app_nil_r.
  - destruct (renderService_out st serviceName svc) as [Hout Hres].
    destruct (renderService app env tm silence st serviceName svc)
      as [st' [err|]]; cbn in *.
    + destruct (serviceResult app env tm serviceName svc) as [r|e] eqn:E.
      * assert (Some err = None) as Hno by (apply Hres; by exists r).
        discriminate Hno.
      * rewrite Hout. by destruct silence.
    + destruct (proj1 Hres eq_refl) as [r ->]. rewrite IH, Hout.
      destruct silence; [by rewrite !app_nil_r|].
      by rewrite <- (assoc_L (++)).
Qed.

End RenderingLog.

(** X9.  The flag [silence] of [BuildOAMApplication] decides what is
    written and nothing else.  The application, the assistant objects
    and the error are the same with and without it; with it nothing is
    written, without it one line for every service that the loop
    reaches, in the order of the loop, the service whose rendering
    fails being the last. *)
Theorem BuildOAMApplication_silence `{Externals}
    (order : list (string * Service)) (app : AppFile) (env : EnvMeta)
    (tm : Manager) :
  snd (BuildOAMApplication order app env tm true)
    = snd (BuildOAMApplication order app env tm false) /\
  fst (BuildOAMApplication order app env tm true) = [] /\
  fst (BuildOAMApplication order app env tm false)
    = renderingMessage <$> visited app env tm order.
Proof.
  split; [by rewrite !BuildOAMApplication_collect|].
  assert (forall silence,
            fst (BuildOAMApplication order app env tm silence)
              = io_Out (fst (rangeServices app env tm silence
                               {| assistantObjects := []; components := [];
                                  io_Out := [] |} order))) as Hfst.
  { intros silence. unfold BuildOAMApplication.
    by destruct (rangeServices _ _ _ _ _ _) as [st [err|]]. }
  rewrite !Hfst, !rangeServices_out. done.
Qed.

Lemma collect_first_error
    (results : list (list Object * ApplicationComponent + error))
    (err : error) :
  collect results = inr err <->
  exists pre post,
    results = pre ++ inr err :: post /\
    Forall (fun r => exists x, r = inl x) pre.
Proof.
  induction results as [|[[o c]|e] results IH]; cbn.
  - split; [done|]. intros (pre & post & E & _). by destruct pre.
  - destruct (collect results) as [[objs comps]|e] eqn:Ec.
    + split; [done|]. intros (pre & post & E & Hpre).
      destruct pre as [|r pre]; [done|]. injection E as <- E.
      apply Forall_cons in Hpre as [_ Hpre].
      assert (inl (objs, comps) = inr err
              :> list Object * list ApplicationComponent + error); [|done].
      apply IH. by exists pre, post.
    + split.
      * intros [= ->]. destruct (proj1 IH eq_refl) as (pre & post & -> & Hpre).
        exists (inl (o, c) :: pre), post. split; [done|].
        apply Forall_cons. split; [by eexists|done].
      * intros (pre & post & E & Hpre). destruct pre as [|r pre]; [done|].
        injection E as <- E. apply Forall_cons in Hpre as [_ Hpre].
        apply IH. by exists pre, post.
  - split.
    + intros [= ->]. by exists [], results.
    + intros (pre & post & E & Hpre). destruct pre as [|r pre].
      * by injection E as ->.
      * injection E as <- _. apply Forall_cons in Hpre as [[x Hx] _]. done.
Qed.

(** X10.  [BuildOAMApplication] fails with the error of the first
    service, in the order of the loop, whose rendering fails: it
    returns the error [err], with no application and no object,
    exactly when the services before some service are rendered and
    that service fails with [err]. *)
Theorem BuildOAMApplication_first_failure `{Externals}
    (order : list (string * Service)) (app : AppFile) (env : EnvMeta)
    (tm : Manager) (silence : bool) (err : error) :
  snd (BuildOAMApplication order app env tm silence) = (None, [], Some err) <->
  exists pre serviceName svc post,
    order = pre ++ (serviceName, svc) :: post /\
    Forall (fun entry =>
              exists r, serviceResult app env tm (fst entry) (snd entry) = inl r)
           pre /\
    serviceResult app env tm serviceName svc = inr err.
Proof.
  rewrite BuildOAMApplication_collect.
  transitivity (collect (resultsOf app env tm order) = inr err).
  { destruct (collect (resultsOf app env tm order)) as [[objs comps]|e];
      split; intros E; simplify_eq; done. }
  rewrite collect_first_error. unfold resultsOf. split.
  - intros (pre' & post' & E & Hpre).
    apply fmap_app_inv in E as (pre & rest & -> & E & ->).
    symmetry in E. apply fmap_cons_inv in E as ([n s] & post & Hns & -> & ->).
    exists pre, n, s, post. split; [done|]. split; [|done].
    rewrite Forall_forall in Hpre. apply Forall_forall. intros e He.
    destruct (Hpre _ (list_elem_of_fmap_2 _ _ _ He)) as [x Hx]. by exists x.
  - intros (pre & n & s & post & -> & Hpre & Hns).
    eexists _, _. rewrite fmap_app, fmap_cons. cbn. rewrite Hns.
    split; [reflexivity|]. rewrite Forall_forall in Hpre.
    apply Forall_forall. intros r (e & -> & He)%list_elem_of_fmap.
    by apply Hpre.
Qed.

Lemma collect_Forall2 `{Externals} (app : AppFile) (env : EnvMeta)
    (tm : Manager) (order : list (string * Service)) :
  forall objs comps,
    collect (resultsOf app env tm order) = inl (objs, comps) ->
    Forall2 (fun entry comp =>
               RenderServiceToApplicationComponent (snd entry) tm (fst entry)
                 = (comp, None))
            order comps /\
    exists cms,
      objs = ObjConfigMap <$> cms /\
      Forall2 (configMapOf app env)
              (filter (fun entry => GetUserConfigName (snd entry) <> "") order)
              cms.
Proof.
  induction order as [|[n s] order IH]; intros objs comps E; cbn in E.
  - injection E as <- <-. split; [constructor|]. exists []. split; [done|].
    rewrite filter_nil. constructor.
  - destruct (serviceResult app env tm n s) as [[o c]|e] eqn:Es; [|done].
    fold (resultsOf app env tm order) in E.
    destruct (collect (resultsOf app env tm order)) as [[objs' comps']|e];
      [|done].
    injection E as <- <-.
    destruct (IH _ _ eq_refl) as (Hcomps & cms & -> & Hcms).
    unfold serviceResult in Es. rewrite filter_cons. cbn.
    destruct (decide (GetUserConfigName s <> "")) as [Hc|Hc].
    + repeat case_match; simplify_eq.
      split; [by constructor|]. eexists (_ :: cms). split; [done|].
      constructor; [|done]. by eexists _, _.
    + repeat case_match; simplify_eq.
      split; [by constructor|]. by exists cms.
Qed.

(** X11.  An application that [BuildOAMApplication] returns has one
    component for every service, in the order of the loop: the
    component that [RenderServiceToApplicationComponent] returns for
    the service, with the scopes that name the health scope.  The
    assistant objects are one config map for every service that names
    a configuration, in the order of the loop, none for the other
    services, and the health scope at the end. *)
Theorem BuildOAMApplication_success `{Externals}
    (order : list (string * Service)) (app : AppFile) (env : EnvMeta)
    (tm : Manager) (silence : bool) (servApp : Application)
    (objs : list Object) :
  snd (BuildOAMApplication order app env tm silence)
    = (Some servApp, objs, None) ->
  Forall2 (componentOf app tm) order (Components servApp) /\
  exists cms health,
    objs = (ObjConfigMap <$> cms) ++ [ObjHealthScope health] /\
    Forall2 (configMapOf app env)
            (filter (fun entry => GetUserConfigName (snd entry) <> "") order)
            cms.
Proof.
  rewrite BuildOAMApplication_collect.
  destruct (collect (resultsOf app env tm order)) as [[objs' comps]|err] eqn:E;
    [|done].
  intros [= <- <-].
  destruct (collect_Forall2 app env tm order _ _ E) as (Hcomps & cms & -> & Hcms).
  split; [|by eexists cms, _].
  cbn. apply Forall2_fmap_r.
  eapply Forall2_impl; [exact Hcomps|]. intros entry comp Hr. by exists comp.
Qed.

Lemma BuildOAMApplication_success_witness :
  exists servApp objs,
    Forall2 (@componentOf Samples.sampleExternals Samples.yamlConfigured ∅)
            [("worker", Samples.configured); ("frontend", Samples.frontend)]
            (Components servApp) /\
    exists cms health,
      objs = (ObjConfigMap <$> cms) ++ [ObjHealthScope health] /\
      Forall2 (@configMapOf Samples.sampleExternals Samples.yamlConfigured
                 Samples.sampleEnv)
              (filter (fun entry =>
                         @GetUserConfigName Samples.sampleExternals (snd entry)
                           <> "")
                      [("worker", Samples.configured);
                       ("frontend", Samples.frontend)])
              cms.
Proof.
  eexists _, _.
  apply (@BuildOAMApplication_success Samples.sampleExternals
           [("worker", Samples.configured); ("frontend", Samples.frontend)]
           Samples.yamlConfigured Samples.sampleEnv ∅ true).
  reflexivity.
Defined.

(** ** The default paths *)

Import AppfileDefaults.

(** X12.  [Load] reads the first of [./vela.yaml], [./vela.json] and
    [./Appfile] that [os.Stat] finds, the last one when it finds none
    of the first two.  What it reads from [./vela.yaml] is taken for
    YAML and what it reads from [./vela.json] for JSON, whatever the
    content and whatever other files there are; what it reads from
    [./Appfile] is taken for JSON when it is valid JSON and for YAML
    otherwise. *)
Theorem Load_default_paths `{Externals} `{Platform} :
  (os_Stat "./vela.yaml" = None ->
   forall b, ioutil_ReadFile (filepath_Clean "./vela.yaml") = (b, None) ->
             Load = parseAsYAML b) /\
  (is_Some (os_Stat "./vela.yaml") -> os_Stat "./vela.json" = None ->
   forall b, ioutil_ReadFile (filepath_Clean "./vela.json") = (b, None) ->
             Load = parseAsJSON b) /\
  (is_Some (os_Stat "./vela.yaml") -> is_Some (os_Stat "./vela.json") ->
   forall b, ioutil_ReadFile (filepath_Clean "./Appfile") = (b, None) ->
             Load = if json_Valid b then parseAsJSON b else parseAsYAML b).
Proof.
  unfold Load, DefaultAppfilePath, DefaultJSONAppfilePath,
    DefaultUnknowFormatAppfilePath.
  split; [|split].
  - intros -> b Hb. by rewrite (LoadFromFile_formatByExtension _ b Hb).
  - intros [e ->] -> b Hb. by rewrite (LoadFromFile_formatByExtension _ b Hb).
  - intros [e ->] [e' ->] b Hb.
    by rewrite (LoadFromFile_formatByExtension _ b Hb).
Qed.

Lemma Load_default_paths_witness :
  @Load MoreSamples.defaultPaths MoreSamples.samplePlatform
    = @parseAsJSON MoreSamples.defaultPaths "name: fromjson".
Proof.
  destruct (@Load_default_paths MoreSamples.defaultPaths
              MoreSamples.samplePlatform) as (_ & Hjson & _).
  apply Hjson; [by eexists|reflexivity|reflexivity].
Defined.

(** ** Package commands *)

Import Commands.

(** X13.  [GetCapabilityByName] returns the first capability of the
    list that has the name: it returns a capability without error
    exactly when the capability is in the list under that name with no
    capability of that name before it; and it returns an error exactly
    when no capability of the list has the name, and then the error is
    [<name> not found] and the capability the zero value. *)
Theorem GetCapabilityByName_first (name : string)
    (workloads : list Capability) :
  (forall c,
     GetCapabilityByName name workloads = (c, None) <->
     exists pre post,
       workloads = pre ++ c :: post /\ cap_Name c = name /\
       forall v, v ∈ pre -> cap_Name v <> name) /\
  (forall c err,
     GetCapabilityByName name workloads = (c, Some err) <->
     (forall v, v ∈ workloads -> cap_Name v <> name) /\
     c = zeroCapability /\ err = errorString (name +:+ " not found")).
Proof.
  induction workloads as [|v workloads [IHok IHerr]]; cbn.
  - split.
    + intros c. split; [done|]. intros (pre & post & E & _). by destruct pre.
    + intros c err. split.
      * intros [= <- <-]. split; [|done]. by intros v ?%elem_of_nil.
      * by intros (_ & -> & ->).
  - destruct (decide (cap_Name v = name)) as [Hv|Hv].
    + split.
      * intros c. split.
        -- intros [= <-]. exists [], workloads. split; [done|].
           split; [done|]. by intros ? ?%elem_of_nil.
        -- intros (pre & post & E & Hc & Hpre). destruct pre as [|p pre].
           ++ by injection E as ->.
           ++ injection E as <- _. destruct (Hpre v); [left|done].
      * intros c err. split; [done|]. intros (Hall & _).
        destruct (Hall v); [left|done].
    + split.
      * intros c. rewrite IHok. split.
        -- intros (pre & post & -> & Hc & Hpre). exists (v :: pre), post.
           split; [done|]. split; [done|].
           intros v' [->|Hin]%elem_of_cons; [done|by apply Hpre].
        -- intros (pre & post & E & Hc & Hpre). destruct pre as [|p pre].
           ++ injection E as <- _. done.
           ++ injection E as <- ->. exists pre, post. split; [done|].
              split; [done|]. intros v' Hin. apply Hpre. by right.
      * intros c err. rewrite IHerr. split.
        -- intros (Hall & -> & ->). split; [|done].
           intros v' [->|Hin]%elem_of_cons; [done|by apply Hall].
        -- intros (Hall & -> & ->). split; [|done].
           intros v' Hin. apply Hall. by right.
Qed.

(** X14.  When the download succeeds, [saveRemoteAppfile] writes the
    body to one file, [vela.json], [vela.yaml] or [Appfile], and
    returns its name with the error of the write.  The name keeps what
    the extension of the URL says of the format: [LoadFromFile] takes
    the file for JSON or YAML as it would take a file of the name of
    the URL. *)
Theorem saveRemoteAppfile_keeps_format `{Network} (url body : string) :
  HTTPGet url = (body, None) ->
  let dest := fst (fst (saveRemoteAppfile url)) in
  saveRemoteAppfile url
    = ((dest, ioutil_WriteFile dest body), [(dest, body)]) /\
  (dest = "vela.json" \/ dest = "vela.yaml" \/ dest = "Appfile") /\
  forall (E : Externals) (b : string),
    formatByExtension dest b = formatByExtension url b /\
    (ioutil_ReadFile (filepath_Clean dest) = (b, None) ->
     LoadFromFile dest = formatByExtension url b).
Proof.
  intros Hget. unfold saveRemoteAppfile. rewrite Hget. cbn.
  split; [reflexivity|].
  assert (forall (E : Externals) (b : string),
            formatByExtension
              (if decide (Ext url = ".json") then "vela.json"
               else if decide (Ext url = ".yaml" \/ Ext url = ".yml")
                    then "vela.yaml" else "Appfile") b
            = formatByExtension url b) as Hfmt.
  { intros E b. unfold formatByExtension.
    destruct (decide (Ext url = ".json")) as [Hj|Hj].
    - rewrite Hj. reflexivity.
    - destruct (decide (Ext url = ".yaml" \/ Ext url = ".yml")) as [Hy|Hy];
        reflexivity. }
  split.
  - repeat case_decide; auto.
  - intros E b. split; [apply Hfmt|].
    intros Hread. rewrite (LoadFromFile_formatByExtension _ b Hread).
    apply Hfmt.
Qed.

Lemma saveRemoteAppfile_keeps_format_witness :
  @saveRemoteAppfile MoreSamples.sampleNetwork
    "https://example.com/app/vela.json"
    = (("vela.json", None), [("vela.json", "{}")]).
Proof.
  exact (proj1 (@saveRemoteAppfile_keeps_format MoreSamples.sampleNetwork
                  "https://example.com/app/vela.json" "{}" eq_refl)).
Defined.

(** ** The label of the workload type *)

Lemma labelWorkload_labelled `{Platform} (services : gmap string Service)
    (c : Component) :
  isUnstructured c = true ->
  exists c',
    labelWorkload services c = Return c' /\ labelled services c c' /\
    isUnstructured c' = true /\ labelWorkload services c' = Return c'.
Proof.
  destruct c as [name [labels content| |]]; try discriminate 1. intros _.
  unfold labelWorkload. cbn. eexists. split; [reflexivity|].
  split; [|split; [reflexivity|]].
  - split; [reflexivity|]. cbn. eexists labels, content, _.
    split; [reflexivity|]. split; [reflexivity|].
    destruct labels as [labels|]; cbn.
    + split; [apply lookup_insert_eq|]. intros key Hkey.
      by apply lookup_insert_ne.
    + split; [apply lookup_singleton_eq|]. intros key Hkey.
      rewrite lookup_empty. by apply lookup_singleton_ne.
  - cbn. do 3 f_equal. destruct labels as [labels|]; f_equal.
    + apply insert_insert_eq.
    + apply insert_singleton_eq.
Qed.

(** X15.  On components whose workloads are all unstructured objects,
    [addWorkloadTypeLabel] does not panic and leaves every component
    with its name and its workload, the labels of the workload being
    those it had with one more or one changed: under the key of the
    workload type, the type of the service of the name of the
    component.  A second call changes nothing. *)
Theorem addWorkloadTypeLabel_labels `{Platform} (comps : list Component)
    (services : gmap string Service) :
  Forall (fun c => isUnstructured c = true) comps ->
  exists comps',
    addWorkloadTypeLabel comps services = (comps', None) /\
    Forall2 (labelled services) comps comps' /\
    addWorkloadTypeLabel comps' services = (comps', None).
Proof.
  induction 1 as [|c comps Hc _ (comps' & E & Hl & E')]; cbn.
  - exists []. repeat split. constructor.
  - destruct (labelWorkload_labelled services c Hc) as (c' & Ec & Hlc & _ & Ec').
    rewrite Ec, E. exists (c' :: comps'). split; [reflexivity|].
    split; [by constructor|]. cbn. by rewrite Ec', E'.
Qed.

Lemma addWorkloadTypeLabel_labels_witness :
  exists comps',
    @addWorkloadTypeLabel MoreSamples.samplePlatform
      MoreSamples.sampleComponents (Services Samples.yamlNormal)
      = (comps', None) /\
    Forall2 (@labelled MoreSamples.samplePlatform (Services Samples.yamlNormal))
            MoreSamples.sampleComponents comps' /\
    @addWorkloadTypeLabel MoreSamples.samplePlatform comps'
      (Services Samples.yamlNormal) = (comps', None).
Proof.
  apply (@addWorkloadTypeLabel_labels MoreSamples.samplePlatform).
  repeat constructor.
Defined.

(** X16.  [addWorkloadTypeLabel] panics at the first component whose
    workload is no unstructured object; the components before it are
    labelled by then, that component and those after it are as they
    were. *)
Theorem addWorkloadTypeLabel_panic `{Platform} (pre post : list Component)
    (c : Component) (services : gmap string Service) :
  Forall (fun c => isUnstructured c = true) pre ->
  isUnstructured c = false ->
  exists pre' msg,
    addWorkloadTypeLabel (pre ++ c :: post) services
      = (pre' ++ c :: post, Some msg) /\
    Forall2 (labelled services) pre pre' /\
    labelWorkload services c = Panic msg.
Proof.
  intros Hpre Hc. induction Hpre as [|p pre Hp _ (pre' & msg & E & Hl & Hm)].
  - cbn. destruct c as [name [labels content|type|]]; try discriminate Hc;
      cbn; eexists [], _; repeat split; constructor.
  - destruct (labelWorkload_labelled services p Hp) as (p' & Ep & Hlp & _).
    cbn. rewrite Ep, E. exists (p' :: pre'), msg. split; [reflexivity|].
    split; [by constructor|exact Hm].
Qed.

Lemma addWorkloadTypeLabel_panic_witness :
  exists pre' msg,
    @addWorkloadTypeLabel MoreSamples.samplePlatform
      (MoreSamples.sampleComponents ++
       {| component_Name := "job"; Workload := NilObject |} :: [])
      (Services Samples.yamlNormal)
      = (pre' ++ {| component_Name := "job"; Workload := NilObject |} :: [],
         Some msg) /\
    Forall2 (@labelled MoreSamples.samplePlatform (Services Samples.yamlNormal))
            MoreSamples.sampleComponents pre' /\
    @labelWorkload MoreSamples.samplePlatform (Services Samples.yamlNormal)
      {| component_Name := "job"; Workload := NilObject |} = Panic msg.
Proof.
  apply (@addWorkloadTypeLabel_panic MoreSamples.samplePlatform).
  - repeat constructor.
  - reflexivity.
Defined.

(** ** Package build *)

Import GoStrings Build.

Lemma Split_not_nil (s : string) (sep : ascii) : Split s sep <> [].
Proof.
  destruct s as [|a s]; cbn; [done|].
  destruct (decide (a = sep)); [done|]. by destruct (Split s sep).
Qed.

Lemma Split_cons (a : ascii) (s : string) (sep : ascii) :
  Split (String a s) sep =
  if decide (a = sep) then "" :: Split s sep
  else String a (hd "" (Split s sep)) :: tl (Split s sep).
Proof.
  cbn. destruct (decide (a = sep)); [done|].
  pose proof (Split_not_nil s sep). by destruct (Split s sep).
Qed.

Lemma Join_cons (elem : string) (elems : list string) (sep : string) :
  elems <> [] -> Join (elem :: elems) sep = elem +:+ sep +:+ Join elems sep.
Proof. by destruct elems. Qed.

Lemma Join_String (a : ascii) (elems : list string) (sep : string) :
  Join (String a (hd "" elems) :: tl elems) sep = String a (Join elems sep).
Proof. destruct elems as [|elem [|elem' elems]]; reflexivity. Qed.

Lemma Join_Split (s : string) (sep : ascii) :
  Join (Split s sep) (String sep "") = s.
Proof.
  induction s as [|a s IH]; [done|].
  rewrite Split_cons. destruct (decide (a = sep)) as [->|_].
  - rewrite Join_cons by apply Split_not_nil. by rewrite IH.
  - by rewrite Join_String, IH.
Qed.

Lemma Split_no_separator (s : string) (sep : ascii) :
  contains sep s = false -> Split s sep = [s].
Proof.
  induction s as [|a s IH]; [done|]. rewrite Split_cons. cbn [contains].
  destruct (decide (a = sep)); [done|]. intros Hs. by rewrite IH.
Qed.

Lemma Split_length (s : string) (sep : ascii) :
  contains sep s = true -> 2 <= length (Split s sep).
Proof.
  induction s as [|a s IH]; [done|]. rewrite Split_cons. cbn [contains].
  pose proof (Split_not_nil s sep) as Hne.
  destruct (decide (a = sep)).
  - intros _. destruct (Split s sep); [done|]. cbn. lia.
  - intros Hs. specialize (IH Hs). destruct (Split s sep); [done|].
    exact IH.
Qed.

Lemma removelast_cons' {A} (x : A) (l : list A) :
  l <> [] -> removelast (x :: l) = x :: removelast l.
Proof. by destruct l. Qed.

Lemma last_cons' {A} (x d : A) (l : list A) :
  l <> [] -> List.last (x :: l) d = List.last l d.
Proof. by destruct l. Qed.

Lemma Split_last_no_separator (s : string) (sep : ascii) :
  contains sep (List.last (Split s sep) "") = false.
Proof.
  induction s as [|a s IH]; [done|]. rewrite Split_cons.
  pose proof (Split_not_nil s sep) as Hne.
  destruct (decide (a = sep)) as [->|Ha].
  - by rewrite last_cons'.
  - destruct (Split s sep) as [|part [|part' parts]]; [done| |exact IH].
    cbn in IH |- *. by rewrite decide_False.
Qed.

Lemma Split_with_separator (s : string) (sep : ascii) :
  contains sep s = true ->
  s = Join (removelast (Split s sep)) (String sep "") +:+ String sep ""
      +:+ List.last (Split s sep) "".
Proof.
  induction s as [|a s IH]; [done|]. rewrite Split_cons. cbn [contains].
  pose proof (Split_not_nil s sep) as Hne.
  destruct (decide (a = sep)) as [->|Ha].
  - intros _. rewrite removelast_cons', last_cons' by done.
    destruct (contains sep s) eqn:Hs.
    + pose proof (Split_length s sep Hs) as Hlen.
      rewrite Join_cons.
      * rewrite (IH eq_refl) at 1. reflexivity.
      * destruct (Split s sep) as [|? [|? ?]]; cbn in *; try done; lia.
    + rewrite (Split_no_separator s sep Hs). reflexivity.
  - intros Hs. pose proof (Split_length s sep Hs) as Hlen.
    specialize (IH Hs).
    destruct (Split s sep) as [|part [|part' parts]]; [done|cbn in Hlen; lia|].
    cbn [hd tl].
    rewrite removelast_cons', last_cons' by done.
    rewrite removelast_cons', last_cons' in IH by done.
    rewrite IH at 1.
    destruct (removelast (part' :: parts)); reflexivity.
Qed.

Lemma append_nil_r (s : string) : s +:+ "" = s.
Proof.
  induction s as [|a s IH]; [done|].
  change (String a s +:+ "") with (String a (s +:+ "")). by rewrite IH.
Qed.

Lemma append_assoc' (s t u : string) : (s +:+ t) +:+ u = s +:+ (t +:+ u).
Proof.
  induction s as [|a s IH]; [done|].
  change (String a ((s +:+ t) +:+ u) = String a (s +:+ (t +:+ u))).
  by rewrite IH.
Qed.

Lemma length_zero (s : string) : ~ 0 < String.length s -> s = "".
Proof. destruct s; cbn; [done|lia]. Qed.

Lemma asyncLogFrom_lines (reads : list (string * option readError)) :
  forall cache,
    contains lineFeed cache = false ->
    Forall (fun b => b = "" \/ contains lineFeed b = true)
           (dataBeforeEOF reads) ->
    exists tail,
      contains lineFeed tail = false /\
      cache +:+ concatenated (dataBeforeEOF reads)
        = concatenated (fst (asyncLogFrom cache reads)) +:+ tail.
Proof.
  induction reads as [|[b err] reads IH]; intros cache Hcache Hdata.
  - exists cache. split; [done|]. cbn. apply append_nil_r.
  - cbn [dataBeforeEOF asyncLogFrom] in *.
    destruct (isEOF err).
    { exists cache. split; [done|]. cbn. apply append_nil_r. }
    apply Forall_cons in Hdata as [Hb Hdata].
    destruct (decide (0 < String.length b)) as [Hlen|Hlen].
    + destruct Hb as [->|Hb]; [by apply Nat.lt_irrefl in Hlen|].
      destruct (IH (List.last (Split b (ascii_of_nat 10)) "")
                  (Split_last_no_separator b lineFeed) Hdata)
        as (tail & Htail & E).
      destruct (asyncLogFrom _ reads) as [out returned]. cbn in E |- *.
      exists tail. split; [done|].
      rewrite (Split_with_separator b lineFeed Hb) at 1.
      unfold lineFeed, newline in *.
      unfold concatenated in E. rewrite !append_assoc'. by rewrite E.
    + apply length_zero in Hlen as ->.
      destruct (IH cache Hcache Hdata) as (tail & Htail & E).
      exists tail. split; [done|]. exact E.
Qed.

(** X17.  When every answer of the reader before [io.EOF] is empty or
    has a line feed in it, what [asyncLog] writes is what was read, up
    to its last line feed: the bytes read are the writes one after the
    other, followed by a rest without line feed, which is not
    written. *)
Theorem asyncLog_lines (reads : list (string * option readError)) :
  Forall (fun b => b = "" \/ contains lineFeed b = true)
         (dataBeforeEOF reads) ->
  exists tail,
    contains lineFeed tail = false /\
    concatenated (dataBeforeEOF reads)
      = concatenated (fst (asyncLog reads)) +:+ tail.
Proof. intros Hdata. by apply (asyncLogFrom_lines reads ""). Qed.

Lemma asyncLogFrom_EOF (pre : list (string * option readError)) :
  forall cache b post,
    Forall (fun r => isEOF (snd r) = false) pre ->
    asyncLogFrom cache (pre ++ (b, Some EOF) :: post)
      = (fst (asyncLogFrom cache pre), true) /\
    snd (asyncLogFrom cache pre) = false.
Proof.
  induction pre as [|[c err] pre IH]; intros cache b post Hpre; [done|].
  apply Forall_cons in Hpre as [Herr Hpre]. cbn in Herr.
  cbn [asyncLogFrom app]. rewrite Herr.
  destruct (decide (0 < String.length c)).
  - destruct (IH (List.last (Split c (ascii_of_nat 10)) "") b post Hpre)
      as [-> Hret].
    destruct (asyncLogFrom _ pre) as [out returned]. cbn in *. by subst.
  - apply IH, Hpre.
Qed.

Lemma asyncLogFrom_returned (reads : list (string * option readError)) :
  forall cache,
    snd (asyncLogFrom cache reads) = true <->
    Exists (fun r => isEOF (snd r) = true) reads.
Proof.
  induction reads as [|[b err] reads IH]; intros cache.
  - cbn. split; [done|]. by intros ?%Exists_nil.
  - cbn [asyncLogFrom]. rewrite Exists_cons. cbn [snd].
    destruct (isEOF err); [by split; [left|]|].
    destruct (decide (0 < String.length b)).
    + specialize (IH (List.last (Split b (ascii_of_nat 10)) "")).
      destruct (asyncLogFrom _ reads) as [out returned]. cbn in *.
      rewrite IH. split; [by right|]. by intros [?|?].
    + rewrite IH. split; [by right|]. by intros [?|?].
Qed.

Lemma asyncLogFrom_count (reads : list (string * option readError)) :
  forall cache,
    length (fst (asyncLogFrom cache reads))
      = length (filter (fun b => b <> "") (dataBeforeEOF reads)).
Proof.
  induction reads as [|[b err] reads IH]; intros cache; [done|].
  cbn [asyncLogFrom dataBeforeEOF]. destruct (isEOF err); [done|].
  rewrite filter_cons.
  destruct (decide (0 < String.length b)) as [Hlen|Hlen].
  - specialize (IH (List.last (Split b (ascii_of_nat 10)) "")).
    destruct (asyncLogFrom _ reads) as [out returned]. cbn in *.
    rewrite decide_True; [cbn; by rewrite IH|].
    intros ->. by apply Nat.lt_irrefl in Hlen.
  - apply length_zero in Hlen as ->. by rewrite decide_False, IH by auto.
Qed.

(** X18.  [asyncLog] returns exactly when the reader answers with
    [io.EOF].  The bytes that come with that answer, and every answer
    after it, are left out: the writes are those for the answers before
    it, one write for every answer that is not empty. *)
Theorem asyncLog_returns_on_EOF (reads : list (string * option readError)) :
  (snd (asyncLog reads) = true <->
   Exists (fun r => isEOF (snd r) = true) reads) /\
  (forall pre b post,
     reads = pre ++ (b, Some EOF) :: post ->
     Forall (fun r => isEOF (snd r) = false) pre ->
     fst (asyncLog reads) = fst (asyncLog pre)) /\
  length (fst (asyncLog reads))
    = length (filter (fun b => b <> "") (dataBeforeEOF reads)).
Proof.
  unfold asyncLog. split; [apply asyncLogFrom_returned|].
  split; [|apply asyncLogFrom_count].
  intros pre b post -> Hpre.
  by rewrite (proj1 (asyncLogFrom_EOF pre "" b post Hpre)).
Qed.

Section CommandRuns.
Context `{Exec}.

Lemma runCommand_started (st : process) (argv : list string)
    (execFormat waitFormat : string) :
  (started (fst (runCommand st argv execFormat waitFormat)) = started st /\
   is_Some (snd (runCommand st argv execFormat waitFormat))) \/
  (started (fst (runCommand st argv execFormat waitFormat))
     = started st ++ [argv] /\
   snd (runCommand st argv execFormat waitFormat) = Wait (started st) argv).
Proof.
  unfold runCommand.
  destruct (StdoutPipe (started st) argv); [left; by eauto|].
  destruct (StderrPipe (started st) argv); [left; by eauto|].
  destruct (Start (started st) argv); [left; by eauto|].
  right. by destruct (Wait (started st) argv).
Qed.

Lemma pushImage_started (b : Build) (st : process) (image : string) :
  (started (fst (pushImage b st image)) = started st /\
   is_Some (snd (pushImage b st image))) \/
  (started (fst (pushImage b st image)) = started st ++ [pushCommand b image] /\
   snd (pushImage b st image) = Wait (started st) (pushCommand b image)).
Proof.
  unfold pushImage, pushCommand.
  destruct (decide (Local (build_Push b) = "kind"));
    match goal with
    | |- context [runCommand ?s ?a ?e ?w] =>
        destruct (runCommand_started s a e w) as [[-> ?]|[-> ->]]
    end; auto.
Qed.

End CommandRuns.

(** X19.  With parameters that decode and an image that is a string,
    [handle] starts commands in this order and no others: the build of
    the image, the push of the image, and the push of the image once
    more.  When it returns no error it has started all three, the push
    twice; when the build command ends with an error, no push is
    started.  The push is
    the load into kind when the build section says so and the push by
    docker otherwise. *)
Theorem handle_commands `{Exec} (st : process) (params : Params)
    (pm : string) (b : Build) (image : string) :
  json_MarshalParams params = (pm, None) ->
  json_UnmarshalBuild pm newBuild = (b, None) ->
  LookUp "image" = (stringValue image, None) ->
  exists cmds,
    started (fst (handle st params)) = started st ++ cmds /\
    cmds `prefix_of`
      [buildCommand b image; pushCommand b image; pushCommand b image] /\
    (snd (handle st params) = None ->
     cmds = [buildCommand b image; pushCommand b image; pushCommand b image]) /\
    (is_Some (Wait (started st) (buildCommand b image)) ->
     cmds `prefix_of` [buildCommand b image]).
Proof.
  intros Hm Hu Hl. unfold handle. rewrite Hm, Hu, Hl. unfold buildImage.
  fold (buildCommand b image).
  destruct (runCommand_started st (buildCommand b image)
              ("BuildImage exec command error, message:%s" +:+ newline)
              "BuildImage wait for command execution error:%s")
    as [[Hs He]|[Hs He]];
    destruct (runCommand st (buildCommand b image) _ _) as [st1 e1];
    cbn in Hs, He.
  { destruct He as [e ->]. cbn. exists []. rewrite app_nil_r.
    repeat split; [done|by eexists|done|by eexists]. }
  destruct e1 as [e1|]; cbn.
  { exists [buildCommand b image]. split; [done|]. split; [by eexists|].
    split; [done|]. by intros _. }
  destruct (pushImage_started b st1 image) as [[Hs2 He2]|[Hs2 He2]];
    destruct (pushImage b st1 image) as [st2 e2]; cbn in Hs2, He2.
  { destruct He2 as [e ->]. cbn. exists [buildCommand b image].
    rewrite Hs2, Hs. split; [done|]. split; [by eexists|]. split; [done|].
    by intros _. }
  destruct e2 as [e2|]; cbn.
  { exists [buildCommand b image; pushCommand b image].
    rewrite Hs2, Hs, <- (assoc_L (++)). split; [done|].
    split; [by eexists [_]|]. split; [done|].
    rewrite <- He. by intros [? ?]. }
  destruct (pushImage_started b st2 image) as [[Hs3 He3]|[Hs3 He3]];
    destruct (pushImage b st2 image) as [st3 e3]; cbn in Hs3, He3.
  { destruct He3 as [e ->]. cbn.
    exists [buildCommand b image; pushCommand b image].
    rewrite Hs3, Hs2, Hs, <- (assoc_L (++)). split; [done|].
    split; [by eexists [_]|]. split; [done|].
    rewrite <- He. by intros [? ?]. }
  exists [buildCommand b image; pushCommand b image; pushCommand b image].
  assert (started (fst (match e3 with
                        | Some err => (st3, Some err)
                        | None => (st3, None)
                        end)) = started st3) as -> by (by destruct e3).
  rewrite Hs3, Hs2, Hs, <- !(assoc_L (++)). split; [done|].
  split; [done|]. split; [done|]. rewrite <- He. by intros [? ?].
Qed.

Lemma asyncLog_lines_witness :
  exists tail,
    contains lineFeed tail = false /\
    concatenated ["building" +:+ newline +:+ "step 1"; "";
                  " of 2" +:+ newline +:+ "do"]
      = concatenated
          (fst (asyncLog
                  [("building" +:+ newline +:+ "step 1", None);
                   ("", Some (readFailure (errorString "interrupted")));
                   (" of 2" +:+ newline +:+ "do", None);
                   ("ne" +:+ newline, Some EOF)]))
        +:+ tail.
Proof.
  apply (asyncLog_lines
           [("building" +:+ newline +:+ "step 1", None);
            ("", Some (readFailure (errorString "interrupted")));
            (" of 2" +:+ newline +:+ "do", None);
            ("ne" +:+ newline, Some EOF)]).
  repeat constructor; by right.
Defined.

Lemma handle_commands_witness :
  exists cmds,
    started (fst (@handle MoreSamples.sampleExec MoreSamples.freshProcess "kind"))
      = started MoreSamples.freshProcess ++ cmds /\
    cmds `prefix_of`
      [["docker"; "build"; "-t"; "myapp:v1"; "-f"; "Dockerfile"; "."];
       ["kind"; "load"; "docker-image"; "myapp:v1"];
       ["kind"; "load"; "docker-image"; "myapp:v1"]] /\
    (snd (@handle MoreSamples.sampleExec MoreSamples.freshProcess "kind") = None ->
     cmds = [["docker"; "build"; "-t"; "myapp:v1"; "-f"; "Dockerfile"; "."];
             ["kind"; "load"; "docker-image"; "myapp:v1"];
             ["kind"; "load"; "docker-image"; "myapp:v1"]]) /\
    (is_Some (@Wait MoreSamples.sampleExec
                (started MoreSamples.freshProcess)
                ["docker"; "build"; "-t"; "myapp:v1"; "-f"; "Dockerfile"; "."]) ->
     cmds `prefix_of`
       [["docker"; "build"; "-t"; "myapp:v1"; "-f"; "Dockerfile"; "."]]).
Proof.
  exact (@handle_commands MoreSamples.sampleExec MoreSamples.freshProcess
           "kind" "kind"
           {| build_Push := {| Local := "kind"; Registry := "" |};
              build_Docker := {| File := "Dockerfile"; Context := "." |} |}
           "myapp:v1" eq_refl eq_refl eq_refl).
Defined.
